(** * A shallow embedding of the command-execution and session-state engine

    The development follows the Python sources:
    - [src/command_runner.py]: [run_command], [summarize_output];
    - [src/os_utils.py]: [detect_os], [wrap_command_for_shell];
    - [src/gemini_client.py]: [to_command_from_nl], [to_commands_from_nl];
    - [src/bot.py]: [ModeStore], [CwdStore], [_resolve_cd_target],
      [_preprocess_command_for_cwd], the gates and [on_message].

    Python [str] values are modelled as lists of characters whose code
    points are below 256; Python [int] is [Z]; a [float] is a binary64
    value of [SpecFloat]; a [dict] keyed by channel ids is a [gmap Z _]; a
    raised exception is the [Raise] case of [result], and stateful code
    returns its result together with the state it leaves behind (also
    when it raises). What the code reads from outside itself (file
    system, processes, the oracle, the environment variables) is the
    class [Host]; wall-clock time is the duration a process is given
    there. Paths follow [posixpath], the unix family. *)

From Stdlib Require Import ZArith List Ascii String Lia QArith.
From Stdlib Require Import SpecFloat.
From stdpp Require Import base decidable list gmap strings.

Open Scope Z_scope.

#[local] Set Warnings "-register-all".

(** ** Python values *)

Abbreviation str := (list ascii).

Definition lit (x : string) : str := list_ascii_of_string x.

Definition nl : ascii := ascii_of_nat 10.
Definition backtick : ascii := ascii_of_nat 96.
Definition dquote : ascii := ascii_of_nat 34.
Definition squote : ascii := ascii_of_nat 39.

Definition len {A} (l : list A) : Z := Z.of_nat (length l).

(** Exceptions carry the message that [str(e)] shows. *)
Inductive exn :=
| ValueError (msg : str)
| FileNotFoundError (msg : str)
| IndexError (msg : str)
| OverflowError (msg : str)
| OSError (msg : str).

Definition exn_str (e : exn) : str :=
  match e with
  | ValueError m | FileNotFoundError m | IndexError m
  | OverflowError m | OSError m => m
  end.

Inductive result (A : Type) :=
| Ok (a : A)
| Raise (e : exn).
Arguments Ok {A} a.
Arguments Raise {A} e.

Definition rbind {A B} (r : result A) (f : A -> result B) : result B :=
  match r with
  | Ok a => f a
  | Raise e => Raise e
  end.

(** [bool(x)] of a string, and of [str | None]. *)
Definition truthy (x : str) : bool :=
  match x with [] => false | _ :: _ => true end.

Definition truthy_opt (x : option str) : bool :=
  match x with Some x => truthy x | None => false end.

(** [a or b] on [str | None] and [str]. *)
Definition or_else (a : option str) (b : str) : str :=
  match a with
  | Some x => if truthy x then x else b
  | None => b
  end.

(** *** Characters *)

(** [str.isspace] and the pattern class [\s] on code points below 256. *)
Definition isspace (c : ascii) : bool :=
  let n := nat_of_ascii c in
  ((9 <=? n)%nat && (n <=? 13)%nat) || ((28 <=? n)%nat && (n <=? 32)%nat)
  || (n =? 133)%nat || (n =? 160)%nat.

Definition ascii_eqb (a b : ascii) : bool := Ascii.eqb a b.
Arguments ascii_eqb : simpl never.

(** ASCII lower-casing, which is what IGNORECASE amounts to for the
    letters of the two tokens. *)
Definition lower (c : ascii) : ascii :=
  let n := nat_of_ascii c in
  if ((65 <=? n)%nat && (n <=? 90)%nat) then ascii_of_nat (n + 32) else c.

(** *** Stripping, prefixes, slices *)

Fixpoint lstrip_by (p : ascii -> bool) (x : str) : str :=
  match x with
  | c :: x' => if p c then lstrip_by p x' else x
  | [] => []
  end.

Definition rstrip_by (p : ascii -> bool) (x : str) : str :=
  rev (lstrip_by p (rev x)).

Definition strip_by (p : ascii -> bool) (x : str) : str :=
  rstrip_by p (lstrip_by p x).

(** [x.strip()] *)
Definition strip (x : str) : str := strip_by isspace x.

(** [x.strip(c)] for a one-character argument. *)
Definition strip_char (c : ascii) (x : str) : str := strip_by (ascii_eqb c) x.

Fixpoint startswith (x pre : str) {struct pre} : bool :=
  match pre, x with
  | [], _ => true
  | p :: pre', c :: x' => ascii_eqb p c && startswith x' pre'
  | _ :: _, [] => false
  end.

Definition endswith (x suf : str) : bool := startswith (rev x) (rev suf).

(** A slice bound, as Python clamps it: negative bounds count from the end. *)
Definition clamp_index (n : Z) (i : Z) : nat :=
  let j := if i <? 0 then i + n else i in
  Z.to_nat (Z.min n (Z.max 0 j)).

(** [x[:k]] *)
Definition slice_to {A} (x : list A) (k : Z) : list A :=
  take (clamp_index (len x) k) x.

(** [x[k:]] *)
Definition slice_from {A} (x : list A) (k : Z) : list A :=
  drop (clamp_index (len x) k) x.

(** *** [str(n)] for an integer *)

Definition digit (d : Z) : ascii := ascii_of_nat (48 + Z.to_nat d).

Fixpoint digits_fuel (fuel : nat) (n : Z) (acc : str) : str :=
  match fuel with
  | O => acc
  | S fuel' =>
      let acc' := digit (n mod 10) :: acc in
      if n <? 10 then acc' else digits_fuel fuel' (n / 10) acc'
  end.

Definition str_of_nonneg (n : Z) : str :=
  digits_fuel (S (Z.to_nat (Z.log2 n))) n [].

Definition str_of_int (n : Z) : str :=
  if n <? 0 then "-"%char :: str_of_nonneg (- n) else str_of_nonneg n.

(** *** Binary64 arithmetic: [int * float] and [int(float)] *)

Module Float.

Definition prec : Z := 53.
Definition emax : Z := 1024.

(** The literals [0.6] and [0.35]: the doubles nearest to 6/10 and
    35/100. *)
Definition c_0_6 : spec_float := S754_finite false 5404319552844595 (-53).
Definition c_0_35 : spec_float := S754_finite false 6305039478318694 (-54).

(** [float(n)]: correctly rounded, [OverflowError] when out of range. *)
Definition of_int (n : Z) : result spec_float :=
  match binary_normalize prec emax n 0 false with
  | S754_infinity _ | S754_nan =>
      Raise (OverflowError (lit "int too large to convert to float"))
  | f => Ok f
  end.

Definition mul (x y : spec_float) : spec_float := SFmul prec emax x y.

(** [int(f)]: truncation toward zero. *)
Definition to_int (f : spec_float) : result Z :=
  match f with
  | S754_zero _ => Ok 0
  | S754_finite sg m e =>
      let a := if 0 <=? e then Z.shiftl (Zpos m) e
               else Z.shiftr (Zpos m) (- e) in
      Ok (if sg then - a else a)
  | S754_infinity _ =>
      Raise (OverflowError (lit "cannot convert float infinity to integer"))
  | S754_nan =>
      Raise (ValueError (lit "cannot convert float NaN to integer"))
  end.

(** [int(n * c)] *)
Definition int_mul (n : Z) (c : spec_float) : result Z :=
  rbind (of_int n) (fun f => to_int (mul f c)).

End Float.

(** ** [src/command_runner.py]: the output summarizer *)

Record CommandResult := {
  command : str;
  exit_code : Z;
  stdout : str;
  stderr : str;
}.

(** The text between head and tail:
    ["\n...\n[omitted {omitted} chars]\n...\n"]. *)
Definition omitted_marker (omitted : Z) : str :=
  nl :: lit "..." ++ nl :: lit "[omitted " ++ str_of_int omitted
     ++ lit " chars]" ++ nl :: lit "..." ++ [nl].

Definition summarize_output (text : str) (limit : Z) : result str :=
  if len text <=? limit then Ok text
  else
    rbind (Float.int_mul limit Float.c_0_6) (fun h =>
    let head := slice_to text h in
    rbind (Float.int_mul limit Float.c_0_35) (fun t =>
    let tail := slice_from text (- t) in
    let omitted := len text - len head - len tail in
    Ok (head ++ omitted_marker omitted ++ tail))).

(** The default argument [limit = 1800], as every call site uses it. *)
Definition summarize_output_default (text : str) : result str :=
  summarize_output text 1800.

(** ** [os.path] on the unix family ([posixpath]) *)

Module posixpath.

Definition sep : ascii := "/"%char.

(** [x.split(c)] for a one-character separator. *)
Fixpoint split_on (c : ascii) (x : str) : list str :=
  match x with
  | [] => [[]]
  | a :: x' =>
      if ascii_eqb a c then [] :: split_on c x'
      else match split_on c x' with
           | h :: t => (a :: h) :: t
           | [] => [[a]]
           end
  end.

(** [c.join(parts)] *)
Fixpoint join_with (c : ascii) (parts : list str) : str :=
  match parts with
  | [] => []
  | [p] => p
  | p :: rest => p ++ c :: join_with c rest
  end.

Definition isabs (p : str) : bool := startswith p [sep].

(** [join(a, b)] *)
Definition join (a b : str) : str :=
  if startswith b [sep] then b
  else if negb (truthy a) || endswith a [sep] then a ++ b
  else a ++ sep :: b.

(** [join(a, *p)] *)
Definition join_many (a : str) (p : list str) : str := fold_left join p a.

Definition dot : str := lit ".".
Definition dotdot : str := lit "..".

Definition str_eqb (a b : str) : bool := bool_decide (a = b).

(** The number of leading slashes that [normpath] keeps: 0, 1 or 2. *)
Definition initial_slashes (path : str) : nat :=
  if startswith path [sep] then
    if startswith path [sep; sep] && negb (startswith path [sep; sep; sep])
    then 2%nat else 1%nat
  else 0%nat.

(** One turn of the loop over the components. *)
Definition norm_step (slashes : nat) (new_comps : list str) (comp : str)
  : list str :=
  if str_eqb comp [] || str_eqb comp dot then new_comps
  else if negb (str_eqb comp dotdot)
          || (Nat.eqb slashes 0 && negb (bool_decide (new_comps <> [])))
          || (bool_decide (new_comps <> [])
              && bool_decide (last new_comps = Some dotdot))
  then new_comps ++ [comp]
  else removelast new_comps.

Definition normpath (path : str) : str :=
  if negb (truthy path) then dot
  else
    let slashes := initial_slashes path in
    let comps := fold_left (norm_step slashes) (split_on sep path) [] in
    let path' := repeat sep slashes ++ join_with sep comps in
    if truthy path' then path' else dot.

(** [abspath(path)], with [os.getcwd()] as [cwd]. *)
Definition abspath (cwd : str) (path : str) : str :=
  if isabs path then normpath path else normpath (join cwd path).

Fixpoint common_prefix_len (a b : list str) : nat :=
  match a, b with
  | x :: a', y :: b' => if str_eqb x y then S (common_prefix_len a' b') else O
  | _, _ => O
  end.

Definition parts (p : str) : list str :=
  filter (fun x => x <> []) (split_on sep p).

(** [relpath(path, start)] *)
Definition relpath (cwd : str) (path start : str) : result str :=
  if negb (truthy path) then Raise (ValueError (lit "no path specified"))
  else
    let start_list := parts (abspath cwd start) in
    let path_list := parts (abspath cwd path) in
    let i := common_prefix_len start_list path_list in
    let rel_list := repeat dotdot (length start_list - i) ++ drop i path_list in
    match rel_list with
    | [] => Ok dot
    | a :: p => Ok (join_many a p)
    end.

End posixpath.

(** What "equal to or a descendant of" means for two absolute paths: the
    components of the root are the leading components of the path. *)
Definition within (root path : str) : Prop :=
  posixpath.parts root `prefix_of` posixpath.parts path.

(** ** Patterns of the [re] module

    A pattern is a backtracking matcher in continuation-passing style: it
    is given what must match after it, the remaining input and the groups
    captured so far. Alternatives are tried left to right and the
    quantifiers are greedy, which is the order in which [re] explores
    them, so the first success is the match [re] reports. *)

Module re.

Definition caps : Type := option str * option str.
Definition cont : Type := str -> caps -> option caps.
Definition matcher : Type := cont -> cont.

Definition ch_eqb (ignorecase : bool) (a b : ascii) : bool :=
  if ignorecase then ascii_eqb (lower a) (lower b) else ascii_eqb a b.

(** A literal run of characters. *)
Fixpoint strip_literal (ignorecase : bool) (p x : str) {struct p} : option str :=
  match p, x with
  | [], _ => Some x
  | a :: p', b :: x' =>
      if ch_eqb ignorecase a b then strip_literal ignorecase p' x' else None
  | _ :: _, [] => None
  end.

Definition literal (ignorecase : bool) (p : str) : matcher :=
  fun k x c =>
    match strip_literal ignorecase p x with
    | Some x' => k x' c
    | None => None
    end.

(** Zero or more characters of a class, greedy. *)
Fixpoint star (cls : ascii -> bool) (k : cont) (x : str) (c : caps)
  : option caps :=
  match x with
  | a :: x' =>
      if cls a then
        match star cls k x' c with
        | Some r => Some r
        | None => k x c
        end
      else k x c
  | [] => k x c
  end.

(** One or more characters of a class, greedy. *)
Definition plus (cls : ascii -> bool) : matcher :=
  fun k x c =>
    match x with
    | a :: x' => if cls a then star cls k x' c else None
    | [] => None
    end.

Definition alt (a b : matcher) : matcher :=
  fun k x c =>
    match a k x c with
    | Some r => Some r
    | None => b k x c
    end.

Definition seq (a b : matcher) : matcher := fun k => a (b k).

Definition set_group (n : nat) (v : str) (c : caps) : caps :=
  match n with
  | 1%nat => (Some v, snd c)
  | _ => (fst c, Some v)
  end.

(** A capturing group: what the body consumed is the input minus what is
    left when the body is done. *)
Definition group (n : nat) (a : matcher) : matcher :=
  fun k x c =>
    a (fun x' c' => k x' (set_group n (take (length x - length x') x) c')) x c.

(** [$] without MULTILINE: the end, or just before a final newline. *)
Definition at_end (x : str) : bool :=
  match x with
  | [] => true
  | [a] => ascii_eqb a nl
  | _ => false
  end.

Definition eol : matcher := fun k x c => if at_end x then k x c else None.

(** [re.match(pattern, x)]: anchored at the start. *)
Definition match_ (r : matcher) (x : str) : option caps :=
  r (fun _ c => Some c) x (None, None).

(** [re.search(pattern, x)] for a pattern whose whole match is group 1:
    the leftmost start at which the pattern matches. *)
Fixpoint search (r : matcher) (x : str) : option caps :=
  match match_ r x with
  | Some c => Some c
  | None =>
      match x with
      | [] => None
      | _ :: x' => search r x'
      end
  end.

(** Character classes. *)
Definition not_sep (a : ascii) : bool :=
  negb (ascii_eqb a ";"%char || ascii_eqb a "&"%char).
Definition any_but_newline (a : ascii) : bool := negb (ascii_eqb a nl).
Definition any (a : ascii) : bool := true.

End re.

(** The token [(?:Set-Location|cd)]. *)
Definition cd_token (ignorecase : bool) : re.matcher :=
  re.alt (re.literal ignorecase (lit "Set-Location"))
         (re.literal ignorecase (lit "cd")).

(** What follows the token in both directory-change patterns: one or more
    blanks; group 1, one or more characters other than [;] and [&]; then
    blanks and [;], or blanks, [&&] and blanks, or blanks and the end; group
    2, the rest of the line; the end. *)
Definition cd_tail : re.matcher :=
  re.seq (re.plus isspace)
 (re.seq (re.group 1 (re.plus re.not_sep))
 (re.seq (re.alt (re.seq (re.star isspace) (re.literal false (lit ";")))
         (re.alt (re.seq (re.star isspace)
                 (re.seq (re.literal false (lit "&&")) (re.star isspace)))
                 (re.seq (re.star isspace) re.eol)))
 (re.seq (re.group 2 (re.star re.any_but_newline)) re.eol))).

(** The unix pattern: the literal [cd], then [cd_tail]. *)
Definition cd_pattern_unix : re.matcher :=
  re.seq (re.literal false (lit "cd")) cd_tail.

(** The windows pattern: [Set-Location] or [cd] with IGNORECASE, then
    [cd_tail]. *)
Definition cd_pattern_windows : re.matcher :=
  re.seq (cd_token true) cd_tail.

(** The bare form: the token, blanks, the end; IGNORECASE on the windows
    family only. *)
Definition bare_cd_pattern (is_windows : bool) : re.matcher :=
  re.seq (cd_token is_windows) (re.seq (re.star isspace) re.eol).

(** An opening bracket, anything (DOTALL), a closing bracket; the whole
    match is captured. *)
Definition json_array_pattern : re.matcher :=
  re.group 1 (re.seq (re.literal false (lit "["))
             (re.seq (re.star re.any) (re.literal false (lit "]")))).

(** ** JSON values, as far as the code inspects them *)

Inductive json :=
| JStr (s : str)
| JList (items : list json)
| JOther.

Definition json_str (j : json) : option str :=
  match j with JStr s => Some s | _ => None end.

(** [int(k)] for a decimal key: blanks around, an optional sign, digits
    with single underscores between them. *)
Definition is_digit (c : ascii) : bool :=
  let n := nat_of_ascii c in (48 <=? n)%nat && (n <=? 57)%nat.

Definition digit_val (c : ascii) : Z := Z.of_nat (nat_of_ascii c) - 48.

Fixpoint digits_val (acc : Z) (x : str) : option Z :=
  match x with
  | [] => Some acc
  | c :: x' =>
      if is_digit c then digits_val (10 * acc + digit_val c) x'
      else if ascii_eqb c "_"%char then
        match x' with
        | d :: _ => if is_digit d then digits_val acc x' else None
        | [] => None
        end
      else None
  end.

Definition unsigned_val (x : str) : option Z :=
  match x with
  | c :: _ => if is_digit c then digits_val 0 x else None
  | [] => None
  end.

Definition int_of_str (x : str) : option Z :=
  match strip x with
  | c :: x' =>
      if ascii_eqb c "-"%char then Z.opp <$> unsigned_val x'
      else if ascii_eqb c "+"%char then unsigned_val x'
      else unsigned_val (c :: x')
  | [] => None
  end.

(** ** The host: operating system, file system, processes, oracle and
    configuration

    Everything the code reads from outside itself. A [World] is the state
    of the machine; starting a process gives its behaviour: how long it
    runs, what it writes, its exit status, and the machine it leaves
    behind when it ends and when it is killed. *)

Record Proc (W : Type) := {
  p_duration : Q;
  p_stdout : list ascii;
  p_stderr : list ascii;
  p_returncode : option Z;
  p_done : W;
  p_killed : W;
}.
Arguments p_duration {W} _.
Arguments p_stdout {W} _.
Arguments p_stderr {W} _.
Arguments p_returncode {W} _.
Arguments p_done {W} _.
Arguments p_killed {W} _.

Class Host := {
  World : Type;
  (** [os.path.isdir] *)
  isdir : World -> str -> bool;
  (** [os.getcwd()], which is an absolute path *)
  getcwd : str;
  getcwd_absolute : posixpath.isabs getcwd = true;
  (** [platform.system()] *)
  platform_system : str;
  (** opening a file and [json.load]: [None] for any failure *)
  read_json : World -> str -> option (list (str * json));
  (** [ensure_dir], [json.dump] to the temporary file and [os.replace] *)
  write_json : World -> str -> list (str * str) -> World;
  (** [asyncio.create_subprocess_exec] on an argument vector and a
      working directory *)
  create_subprocess_exec : World -> list str -> str -> result (Proc World);
  (** [bytes.decode(errors='replace')] *)
  decode : list ascii -> str;
  (** [generate_text(prompt)]: the oracle's raw answer *)
  generate_text : str -> result str;
  (** [json.loads]: [None] when it raises *)
  json_loads : str -> option json;
  (** the environment variables, as the module reads them *)
  WORK_DIR : str;
  DEFAULT_MODE : str;
  COMMAND_TIMEOUT_SEC : Q;
  CHAT_MAX_STEPS : Z;
  MODE_STORE_PATH : str;
  CWD_STORE_PATH : str;
  ALLOWED_GUILD_IDS : gset Z;
  ALLOWED_CHANNEL_IDS : gset Z;
  ALLOWED_USER_IDS : gset Z;
}.

(** ** The stores of [src/bot.py] *)

Record ModeStore := {
  ms_path : option str;
  ms_default : str;
  ms_modes : gmap Z str;
}.

Record CwdStore := {
  cs_base : str;
  cs_path : option str;
  cs_cwd : gmap Z str;
}.

(** What the handlers do to the outside, in order. *)
Inductive event :=
| EvSend (msg : str)
| EvSpawn (argv : list str) (cwd : str)
| EvKill
| EvWait.

Definition command_mode : str := lit "command".
Definition chat_mode : str := lit "chat".

(** [mode in ("command", "chat")] *)
Definition valid_mode (mode : str) : bool :=
  bool_decide (mode = command_mode) || bool_decide (mode = chat_mode).

(** [{str(k): v for k, v in m.items()}] *)
Definition snapshot (m : gmap Z str) : list (str * str) :=
  (fun kv => (str_of_int kv.1, kv.2)) <$> map_to_list m.

(** ** Stateful code that may raise

    A computation takes the state and gives its result, or the exception
    it raised, with the state it leaves. *)

Definition M (S A : Type) : Type := S -> result A * S.

Definition ret {S A} (a : A) : M S A := fun b => (Ok a, b).

Definition raise {S A} (e : exn) : M S A := fun b => (Raise e, b).

Definition bind {S A B} (m : M S A) (f : A -> M S B) : M S B :=
  fun b =>
    match m b with
    | (Ok a, b') => f a b'
    | (Raise e, b') => (Raise e, b')
    end.

(** [try: m except Exception as e: h e] *)
Definition try_except {S A} (m : M S A) (h : exn -> M S A) : M S A :=
  fun b =>
    match m b with
    | (Ok a, b') => (Ok a, b')
    | (Raise e, b') => h e b'
    end.

Definition lift {S A} (r : result A) : M S A := fun b => (r, b).

Definition get_state {S} : M S S := fun b => (Ok b, b).

Notation "x <- m ;; k" := (bind m (fun x => k))
  (at level 20, m at level 99, k at level 200, only parsing).
Notation "m ;;; k" := (bind m (fun _ => k))
  (at level 100, k at level 200, right associativity, only parsing).

Section Engine.

Context {H : Host}.

(** The process-wide state: the two stores, the machine, and the log of
    what was done to the outside. *)
Record Bot := {
  mode_store : ModeStore;
  cwd_store : CwdStore;
  world : World;
  log : list event;
}.

Definition emit (e : event) : M Bot unit :=
  fun b => (Ok tt, {| mode_store := mode_store b; cwd_store := cwd_store b;
                      world := world b; log := log b ++ [e] |}).

(** [await message.channel.send(msg)] *)
Definition send (msg : str) : M Bot unit := emit (EvSend msg).

Definition set_world (w : World) : M Bot unit :=
  fun b => (Ok tt, {| mode_store := mode_store b; cwd_store := cwd_store b;
                      world := w; log := log b |}).

Definition set_mode_store (s : ModeStore) : M Bot unit :=
  fun b => (Ok tt, {| mode_store := s; cwd_store := cwd_store b;
                      world := world b; log := log b |}).

Definition set_cwd_store (s : CwdStore) : M Bot unit :=
  fun b => (Ok tt, {| mode_store := mode_store b; cwd_store := s;
                      world := world b; log := log b |}).

Definition get_bot : M Bot Bot := get_state.

(** *** [src/persistence.py] *)

Definition load_json (w : World) (path : str) : list (str * json) :=
  match read_json w path with
  | Some d => d
  | None => []
  end.

Definition save_json (w : World) (path : str) (data : list (str * str)) : World :=
  write_json w path data.

(** *** [ModeStore] *)

Definition ModeStore_init (w : World) (default_mode : str) (path : option str)
  : result ModeStore :=
  let dflt := if valid_mode default_mode then default_mode else command_mode in
  let raw := if truthy_opt path then load_json w (default [] path) else [] in
  rbind
    (foldl (fun acc kv =>
              rbind acc (fun m =>
                match json_str kv.2 with
                | Some v =>
                    if valid_mode v then
                      match int_of_str kv.1 with
                      | Some k => Ok (<[k := v]> m)
                      | None => Raise (ValueError (lit "invalid literal for int()"))
                      end
                    else Ok m
                | None => Ok m
                end))
           (Ok ∅) raw)
    (fun modes =>
       Ok {| ms_path := path; ms_default := dflt; ms_modes := modes |}).

Definition ModeStore__persist : M Bot unit :=
  b <- get_bot ;;
  let s := mode_store b in
  if negb (truthy_opt (ms_path s)) then ret tt
  else set_world (save_json (world b) (default [] (ms_path s)) (snapshot (ms_modes s))).

Definition ModeStore_get (channel_id : Z) : M Bot str :=
  b <- get_bot ;;
  ret (default (ms_default (mode_store b)) (ms_modes (mode_store b) !! channel_id)).

Definition ModeStore_set (channel_id : Z) (mode : str) : M Bot str :=
  b <- get_bot ;;
  let s := mode_store b in
  let mode := if valid_mode mode then mode else ms_default s in
  set_mode_store {| ms_path := ms_path s; ms_default := ms_default s;
                    ms_modes := <[channel_id := mode]> (ms_modes s) |} ;;;
  ModeStore__persist ;;;
  ret mode.

(** *** [CwdStore] *)

Definition CwdStore_init (w : World) (base_dir : str) (path : option str)
  : CwdStore :=
  let base := posixpath.abspath getcwd base_dir in
  let raw := if truthy_opt path then load_json w (default [] path) else [] in
  let cwd :=
    foldl (fun (m : gmap Z str) kv =>
             match int_of_str kv.1, json_str kv.2 with
             | Some cid, Some v =>
                 let abs_v := posixpath.abspath getcwd v in
                 if startswith abs_v base && isdir w abs_v
                 then <[cid := abs_v]> m else m
             | _, _ => m
             end)
          ∅ raw in
  {| cs_base := base; cs_path := path; cs_cwd := cwd |}.

Definition CwdStore__persist : M Bot unit :=
  b <- get_bot ;;
  let s := cwd_store b in
  if negb (truthy_opt (cs_path s)) then ret tt
  else set_world (save_json (world b) (default [] (cs_path s)) (snapshot (cs_cwd s))).

Definition CwdStore_get (channel_id : Z) : M Bot str :=
  b <- get_bot ;;
  ret (default (cs_base (cwd_store b)) (cs_cwd (cwd_store b) !! channel_id)).

Definition CwdStore_set (channel_id : Z) (new_dir : str) : M Bot str :=
  b <- get_bot ;;
  let s := cwd_store b in
  let absd := posixpath.abspath getcwd new_dir in
  if negb (startswith absd (cs_base s)) then
    raise (ValueError (lit "Path escapes WORK_DIR sandbox"))
  else if negb (isdir (world b) absd) then
    raise (FileNotFoundError (lit "Directory does not exist"))
  else
    set_cwd_store {| cs_base := cs_base s; cs_path := cs_path s;
                     cs_cwd := <[channel_id := absd]> (cs_cwd s) |} ;;;
    CwdStore__persist ;;;
    ret absd.

(** *** The directory-change interceptor *)

Definition _resolve_cd_target (channel_id : Z) (arg : option str) : M Bot str :=
  if negb (truthy_opt arg) || negb (truthy (strip (default [] arg))) then
    ret (posixpath.abspath getcwd WORK_DIR)
  else
    current <- CwdStore_get channel_id ;;
    ret (posixpath.abspath getcwd
           (posixpath.join current (strip (default [] arg)))).

(** [f"Changed directory to `{os.path.relpath(newd, os.path.abspath(WORK_DIR))}`"] *)
Definition changed_message (newd : str) : result str :=
  rbind (posixpath.relpath getcwd newd (posixpath.abspath getcwd WORK_DIR))
        (fun rel => Ok (lit "Changed directory to " ++ backtick :: rel ++ [backtick])).

(** [f"Failed to change directory: {e}"] *)
Definition failed_message (e : exn) : str :=
  lit "Failed to change directory: " ++ exn_str e.

Definition _preprocess_command_for_cwd
  (channel_id : Z) (command : str) (is_windows : bool)
  : M Bot (option str * option str) :=
  let text := strip command in
  if negb (truthy text) then ret (None, None)
  else
    match re.match_ (if is_windows then cd_pattern_windows else cd_pattern_unix) text with
    | None =>
        if bool_decide (is_Some (re.match_ (bare_cd_pattern is_windows) text)) then
          target <- _resolve_cd_target channel_id None ;;
          try_except
            (newd <- CwdStore_set channel_id target ;;
             msg <- lift (changed_message newd) ;;
             ret (None, Some msg))
            (fun e => ret (None, Some (failed_message e)))
        else ret (Some text, None)
    | Some (g1, g2) =>
        let path_arg := strip_char squote (strip_char dquote (strip (default [] g1))) in
        let remainder := strip (default [] g2) in
        target <- _resolve_cd_target channel_id (Some path_arg) ;;
        try_except
          (newd <- CwdStore_set channel_id target ;;
           if truthy remainder then ret (Some remainder, None)
           else
             msg <- lift (changed_message newd) ;;
             ret (None, Some msg))
          (fun e => ret (None, Some (failed_message e)))
    end.

(** *** [src/os_utils.py] *)

Record OSInfo := {
  os_name : str;
  os_shell : str;
  is_windows : bool;
}.

Definition detect_os : OSInfo :=
  if bool_decide (platform_system = lit "Windows") then
    {| os_name := lit "Windows"; os_shell := lit "powershell"; is_windows := true |}
  else if bool_decide (platform_system = lit "Darwin") then
    {| os_name := lit "Darwin"; os_shell := lit "/bin/bash"; is_windows := false |}
  else
    {| os_name := lit "Linux"; os_shell := lit "/bin/bash"; is_windows := false |}.

Definition wrap_command_for_shell (command : str) (osinfo : OSInfo) : list str :=
  if is_windows osinfo then
    [os_shell osinfo; lit "-NoLogo"; lit "-NoProfile"; lit "-Command"; command]
  else
    [os_shell osinfo; lit "-lc"; command].

(** *** [src/command_runner.py]: the invoker *)

(** [asyncio.wait_for(proc.communicate(), timeout)]: the streams when the
    process ends within the deadline, [None] for [TimeoutError] when it
    runs longer than [timeout]. *)
Definition wait_for_communicate (p : Proc World) (timeout : option Q)
  : option (list ascii * list ascii) :=
  match timeout with
  | Some t => if Qle_bool (p_duration p) t then Some (p_stdout p, p_stderr p) else None
  | None => Some (p_stdout p, p_stderr p)
  end.

Definition run_command (command : str) (work_dir : option str) (timeout : option Q)
  : M Bot CommandResult :=
  let osinfo := detect_os in
  let argv := wrap_command_for_shell command osinfo in
  let cwd := or_else work_dir getcwd in
  b <- get_bot ;;
  proc <- lift (create_subprocess_exec (world b) argv cwd) ;;
  emit (EvSpawn argv cwd) ;;;
  match wait_for_communicate proc timeout with
  | None =>
      emit EvKill ;;;
      emit EvWait ;;;
      set_world (p_killed proc) ;;;
      ret {| command := command; exit_code := 124; stdout := [];
             stderr := lit "Command timed out" |}
  | Some (stdout_b, stderr_b) =>
      set_world (p_done proc) ;;;
      let out := if truthy stdout_b then decode stdout_b else [] in
      let err := if truthy stderr_b then decode stderr_b else [] in
      ret {| command := command;
             exit_code := default 0 (p_returncode proc);
             stdout := out; stderr := err |}
  end.

(** *** [src/gemini_client.py] *)

Definition POWERSHELL : str := lit "powershell".
Definition BASH : str := lit "bash".

(** The characters at which [str.splitlines] breaks a line. *)
Definition is_linebreak (c : ascii) : bool :=
  let n := nat_of_ascii c in
  ((10 <=? n)%nat && (n <=? 13)%nat) || ((28 <=? n)%nat && (n <=? 30)%nat)
  || (n =? 133)%nat.

Fixpoint first_line (x : str) : str :=
  match x with
  | c :: x' => if is_linebreak c then [] else c :: first_line x'
  | [] => []
  end.

Definition to_command_from_nl (message : str) (style : str) : result str :=
  let shell_instructions :=
    if bool_decide (style = POWERSHELL) then
      lit "Generate ONE Windows PowerShell command (not CMD). Use PowerShell cmdlets like Get-ChildItem, Select-String, "
      ++ lit "Write-Output, etc. Avoid Linux utilities. Do not include code fences, comments, or explanations."
    else
      lit "Generate ONE bash command for Linux/macOS. Prefer POSIX tools (ls, grep, sed, awk). Do not include code fences, "
      ++ lit "comments, or explanations." in
  let fallback :=
    if bool_decide (style = POWERSHELL) then lit "Write-Output 'Unable to determine a command'"
    else lit "echo 'Unable to determine a command'" in
  let system_prompt :=
    lit "You are a command generator. Convert the user's request into exactly one shell command. "
    ++ lit "Prefer safe, read-only commands when ambiguous." in
  let prompt :=
    system_prompt ++ nl :: shell_instructions ++ nl :: lit "User: " ++ message
    ++ nl :: lit "Command:" in
  rbind (generate_text prompt) (fun text =>
  let text := if truthy text then strip_char backtick (strip text) else [] in
  let line := if truthy text then first_line text else [] in
  Ok (if truthy line then line else fallback)).

(** [isinstance(arr, list) and all(isinstance(x, str) for x in arr)] *)
Definition str_list (j : json) : option (list str) :=
  match j with
  | JList items => mapM json_str items
  | _ => None
  end.

Definition to_commands_from_nl (message : str) (style : str) (max_steps : Z)
  : result (list str) :=
  let shell_hint :=
    if bool_decide (style = POWERSHELL) then lit "Windows PowerShell"
    else lit "bash (Linux/macOS)" in
  let system_prompt :=
    lit "You are a planner that converts the user's instruction into a short, safe, ordered list of shell commands. "
    ++ lit "Output STRICTLY a JSON array of strings, each a single command. No comments or explanations." in
  let safety :=
    lit "Prefer safe, read-only commands where possible. Do not use destructive commands unless explicitly requested." in
  let prompt :=
    system_prompt ++ nl :: lit "Shell: " ++ shell_hint ++ lit ". Limit to "
    ++ str_of_int max_steps ++ lit " steps. " ++ safety ++ nl :: lit "User: "
    ++ message ++ nl :: lit "Commands (JSON array only):" in
  rbind (generate_text prompt) (fun text =>
  let text := strip text in
  let parsed :=
    match re.search json_array_pattern text with
    | Some (Some blob, _) =>
        match json_loads blob with
        | Some arr => str_list arr
        | None => None
        end
    | _ => None
    end in
  match parsed with
  | Some arr => Ok (slice_to arr max_steps)
  | None =>
      rbind (to_command_from_nl message style) (fun one => Ok [one])
  end).

(** *** The gates of [src/bot.py] *)

Record Message := {
  author_bot : bool;
  author_id : Z;
  guild_id : option Z;
  channel_id : Z;
  channel_parent : option Z;
  content : str;
}.

(** The parent's id for a thread, the channel's own id otherwise. *)
Definition _channel_key_from_obj (m : Message) : Z :=
  match channel_parent m with
  | Some p => p
  | None => channel_id m
  end.

Definition _is_allowed_location (m : Message) : bool :=
  if bool_decide (ALLOWED_GUILD_IDS ≠ ∅)
     && match guild_id m with
        | None => true
        | Some g => negb (bool_decide (g ∈ ALLOWED_GUILD_IDS))
        end
  then false
  else if bool_decide (ALLOWED_CHANNEL_IDS ≠ ∅)
          && negb (bool_decide (_channel_key_from_obj m ∈ ALLOWED_CHANNEL_IDS))
  then false
  else true.

Definition _is_allowed_user (m : Message) : bool :=
  if negb (bool_decide (ALLOWED_USER_IDS ≠ ∅)) then true
  else bool_decide (author_id m ∈ ALLOWED_USER_IDS).

(** *** Reports *)

(** The report of one invocation: [head], the exit code, then the
    summarized streams that are not empty. *)
Definition report (head : str) (r : CommandResult) : result str :=
  let msg := head ++ lit "exit=" ++ str_of_int (exit_code r) ++ [nl] in
  rbind (if truthy (stdout r)
         then rbind (summarize_output_default (stdout r))
                (fun o => Ok (msg ++ lit "stdout:" ++ nl :: o ++ [nl]))
         else Ok msg) (fun msg =>
  if truthy (stderr r)
  then rbind (summarize_output_default (stderr r))
         (fun e => Ok (msg ++ lit "stderr:" ++ nl :: e))
  else Ok msg).

(** [f"OS: {name}\n$ {cmd}\n"], the head of a single report. *)
Definition single_head (cmd : str) : str :=
  lit "OS: " ++ os_name detect_os ++ nl :: lit "$ " ++ cmd ++ [nl].

(** [f"OS: {os_name}\n"], the head of a step's report in a plan. *)
Definition step_head : str := lit "OS: " ++ os_name detect_os ++ [nl].

(** [f"[{idx}/{n}] "] *)
Definition step_tag (idx n : Z) : str :=
  "["%char :: str_of_int idx ++ "/"%char :: str_of_int n ++ lit "] ".

(** The notice that opens a plan; its last characters are kept as the
    bytes the source file holds. *)
Definition planning_notice (n : Z) : str :=
  lit "Planning " ++ str_of_int n ++ lit " step(s). Executing sequentially"
  ++ map ascii_of_nat [195; 162; 226; 130; 172; 194; 166]%nat.

(** [f"Stopped due to error at step {idx}."] *)
Definition stop_notice (idx : Z) : str :=
  lit "Stopped due to error at step " ++ str_of_int idx ++ lit ".".

(** *** [on_message] *)

(** One command, intercepted and then run: the body shared by command
    mode and by a plan of at most one command. *)
Definition run_single (key : Z) (cmd : str) : M Bot unit :=
  rc <- _preprocess_command_for_cwd key cmd (is_windows detect_os) ;;
  let '(remainder, changed) := rc in
  if truthy_opt changed && negb (truthy_opt remainder) then
    send (default [] changed)
  else
    work_dir <- CwdStore_get key ;;
    result <- run_command (or_else remainder cmd) (Some work_dir)
                (Some COMMAND_TIMEOUT_SEC) ;;
    msg <- lift (report (single_head cmd) result) ;;
    send msg.

(** One turn of the loop over a plan; [true] when the loop breaks. *)
Definition plan_step (key : Z) (n idx : Z) (cmd : str) : M Bot bool :=
  rc <- _preprocess_command_for_cwd key cmd (is_windows detect_os) ;;
  let '(remainder, changed) := rc in
  if truthy_opt changed && negb (truthy_opt remainder) then
    send (step_tag idx n ++ default [] changed) ;;;
    ret false
  else
    send (step_tag idx n ++ lit "$ " ++ cmd) ;;;
    work_dir <- CwdStore_get key ;;
    result <- run_command (or_else remainder cmd) (Some work_dir)
                (Some COMMAND_TIMEOUT_SEC) ;;
    msg <- lift (report step_head result) ;;
    send msg ;;;
    if negb (exit_code result =? 0) then
      send (stop_notice idx) ;;;
      ret true
    else ret false.

(** [for idx, cmd in enumerate(commands, start=idx)] *)
Fixpoint plan_loop (key : Z) (n idx : Z) (commands : list str) : M Bot unit :=
  match commands with
  | [] => ret tt
  | cmd :: rest =>
      stop <- plan_step key n idx cmd ;;
      if stop then ret tt else plan_loop key n (idx + 1) rest
  end.

(** What [on_message] does with the commands the oracle returned. *)
Definition dispatch_plan (key : Z) (commands : list str) : M Bot unit :=
  if len commands <=? 1 then
    match commands with
    | cmd :: _ => run_single key cmd
    | [] => raise (IndexError (lit "list index out of range"))
    end
  else
    send (planning_notice (len commands)) ;;;
    plan_loop key (len commands) 1 commands.

(** The handler of a message. The call of [bot.process_commands], which
    comes after the test of the author and before the gates and lets the
    commands extension answer a message that starts with the prefix, is
    not part of it: that call may send messages, and it reads and writes
    neither store and starts no process. *)
Definition on_message (message : Message) : M Bot unit :=
  if author_bot message then ret tt
  else if negb (_is_allowed_user message) then ret tt
  else if negb (_is_allowed_location message) then ret tt
  else
    modev <- match guild_id message with
             | None => ret DEFAULT_MODE
             | Some _ => ModeStore_get (_channel_key_from_obj message)
             end ;;
    let content := strip (content message) in
    if negb (truthy content) then ret tt
    else
      let key := _channel_key_from_obj message in
      if bool_decide (modev = command_mode) then run_single key content
      else
        let style := if is_windows detect_os then POWERSHELL else BASH in
        let max_steps := CHAT_MAX_STEPS in
        commands <- lift (to_commands_from_nl content style max_steps) ;;
        dispatch_plan key commands.

End Engine.

(** ** Words of the specification

    Definitions that the statements below use to say what the
    specification says. *)

(** The first and the last [n] characters of a text. *)
Definition first_chars (n : Z) (text : str) : str := take (Z.to_nat n) text.
Definition last_chars (n : Z) (text : str) : str :=
  drop (length text - Z.to_nat n) text.

(** The summary as the specification words it: exact floors of 0.6 and
    0.35 of the limit. *)
Definition claimed_summary (text : str) (limit : Z) : str :=
  let h := (6 * limit) / 10 in
  let t := (35 * limit) / 100 in
  first_chars h text ++ omitted_marker (len text - h - t) ++ last_chars t text.

(** The split of the budget is usable: a head length that is not
    negative, a tail length of at least one, both within the limit. *)
Definition split_ok (limit : Z) : bool :=
  match Float.int_mul limit Float.c_0_6, Float.int_mul limit Float.c_0_35 with
  | Ok h, Ok t => (0 <=? h) && (1 <=? t) && (h + t <=? limit)
  | _, _ => false
  end.

(** A component as [normpath] keeps it on an absolute path. *)
Definition clean (comp : str) : Prop :=
  comp <> [] /\ comp <> posixpath.dot /\ comp <> posixpath.dotdot
  /\ Forall (fun a => a <> posixpath.sep) comp.

(** What [normpath] returns for an absolute path. *)
Definition normal_abs (p : str) : Prop :=
  exists (s : nat) (comps : list str),
    (s = 1 \/ s = 2)%nat /\ Forall clean comps
    /\ p = repeat posixpath.sep s ++ posixpath.join_with posixpath.sep comps.

(** What may follow the path argument of a directory change. *)
Inductive cd_rest :=
| NoRest
| Semicolon (r : str)
| DoubleAmp (r : str).

Definition rest_text (t : cd_rest) : str :=
  match t with
  | NoRest => []
  | Semicolon r => ";"%char :: r
  | DoubleAmp r => lit "&&" ++ r
  end.

Definition rest_command (t : cd_rest) : str :=
  match t with
  | NoRest => []
  | Semicolon r | DoubleAmp r => strip r
  end.

Definition rest_single_line (t : cd_rest) : Prop :=
  match t with
  | NoRest => True
  | Semicolon r | DoubleAmp r => forallb re.any_but_newline r = true
  end.

Definition rest_group (t : cd_rest) : str :=
  match t with
  | NoRest => []
  | Semicolon r => r
  | DoubleAmp r => lstrip_by isspace r
  end.

(** The next character, if any, is outside the class. *)
Definition stops (cls : ascii -> bool) (x : str) : Prop :=
  match x with
  | [] => True
  | a :: _ => cls a = false
  end.

(** The token that opens a directory change: [cd] on the unix family; on
    the windows family [cd] or [Set-Location] in any letter case. *)
Definition cd_token_text (is_windows : bool) (tok : str) : Prop :=
  if is_windows
  then map lower tok = lit "cd" \/ map lower tok = lit "set-location"
  else tok = lit "cd".

(** ** A small host to run the code on

    The machine is the list of its directories. Three commands are known:
    [mkdir x] fails, [sleep 100] runs for a hundred seconds, anything else
    prints [ok]. The oracle answers with an empty JSON array. *)

Definition toy_proc (w : list str) (cmd : str) : Proc (list str) :=
  if bool_decide (cmd = lit "mkdir x") then
    {| p_duration := 1 # 100; p_stdout := [];
       p_stderr := lit "mkdir: cannot create directory";
       p_returncode := Some 1; p_done := w; p_killed := w |}
  else if bool_decide (cmd = lit "sleep 100") then
    {| p_duration := 100; p_stdout := []; p_stderr := [];
       p_returncode := Some 0; p_done := w; p_killed := w |}
  else
    {| p_duration := 1 # 100; p_stdout := lit "ok"; p_stderr := [];
       p_returncode := Some 0; p_done := w; p_killed := w |}.

#[export] Instance toy_host : Host := {|
  World := list str;
  isdir w p := bool_decide (p ∈ w);
  getcwd := lit "/home/bot";
  getcwd_absolute := eq_refl;
  platform_system := lit "Linux";
  read_json _ _ := None;
  write_json w _ _ := w;
  create_subprocess_exec w argv _ := Ok (toy_proc w (default [] (last argv)));
  decode x := x;
  generate_text _ := Ok (lit "[]");
  json_loads x := if bool_decide (x = lit "[]") then Some (JList []) else None;
  WORK_DIR := lit "/srv/box";
  DEFAULT_MODE := lit "command";
  COMMAND_TIMEOUT_SEC := 60;
  CHAT_MAX_STEPS := 5;
  MODE_STORE_PATH := lit ".data/modes.json";
  CWD_STORE_PATH := lit ".data/cwd.json";
  ALLOWED_GUILD_IDS := ∅;
  ALLOWED_CHANNEL_IDS := ∅;
  ALLOWED_USER_IDS := ∅;
|}.

(** The toy bot as the module's top level builds it, on a machine with
    the directories [dirs]. *)
Definition toy_bot (dirs : list str) : Bot :=
  {| mode_store := {| ms_path := Some MODE_STORE_PATH; ms_default := lit "command";
                      ms_modes := ∅ |};
     cwd_store := CwdStore_init dirs WORK_DIR (Some CWD_STORE_PATH);
     world := dirs;
     log := [] |}.

Section Readings.

Context {H : Host}.

(** What [CwdStore.get] reads, as a function of the state. *)
Definition current_dir (b : Bot) (key : Z) : str :=
  default (cs_base (cwd_store b)) (cs_cwd (cwd_store b) !! key).

(** The state a successful [CwdStore.set] leaves: the entry written and
    the map persisted. *)
Definition stored (b : Bot) (key : Z) (absd : str) : Bot :=
  let s := {| cs_base := cs_base (cwd_store b); cs_path := cs_path (cwd_store b);
              cs_cwd := <[key := absd]> (cs_cwd (cwd_store b)) |} in
  {| mode_store := mode_store b;
     cwd_store := s;
     world := if negb (truthy_opt (cs_path s)) then world b
              else save_json (world b) (default [] (cs_path s)) (snapshot (cs_cwd s));
     log := log b |}.

(** A trimmed instruction that one of the two directory-change patterns
    recognizes. *)
Definition recognized (is_windows : bool) (text : str) : bool :=
  bool_decide (is_Some (re.match_ (if is_windows then cd_pattern_windows
                                   else cd_pattern_unix) text))
  || bool_decide (is_Some (re.match_ (bare_cd_pattern is_windows) text)).

Definition with_log (b : Bot) (l : list event) : Bot :=
  {| mode_store := mode_store b; cwd_store := cwd_store b; world := world b;
     log := l |}.

Definition with_world (b : Bot) (w : World) : Bot :=
  {| mode_store := mode_store b; cwd_store := cwd_store b; world := w;
     log := log b |}.


(** Step [idx] of a plan of [n] steps, run from [b], went as far as
    invoking a command, which returned [result] and left [b2]. *)
Definition step_invoked (key n idx : Z) (cmd : str) (b : Bot)
    (result : CommandResult) (b2 : Bot) : Prop :=
  exists remainder changed b1,
    _preprocess_command_for_cwd key cmd (is_windows detect_os) b
    = (Ok (remainder, changed), b1)
    /\ truthy_opt changed && negb (truthy_opt remainder) = false
    /\ run_command (or_else remainder cmd) (Some (current_dir b1 key))
         (Some COMMAND_TIMEOUT_SEC)
         (with_log b1 (log b1 ++ [EvSend (step_tag idx n ++ lit "$ " ++ cmd)]))
       = (Ok result, b2).

(** Every mode a store holds, and its default, is one of the two modes. *)
Definition modes_valid (s : ModeStore) : Prop :=
  valid_mode (ms_default s) = true
  /\ forall k v, ms_modes s !! k = Some v -> valid_mode v = true.

End Readings.

(** The values the examples on the small host run on. *)

Definition toy_dirs : list str := [lit "/srv/box"; lit "/srv/box/sub"].

Definition toy_argv (cmd : str) : list str := [lit "/bin/bash"; lit "-lc"; cmd].


Definition toy_mkdir_report : str :=
  lit "OS: Linux" ++ nl :: lit "exit=1" ++ nl :: lit "stderr:" ++ nl
  :: lit "mkdir: cannot create directory".

Definition toy_chat_message : Message :=
  {| author_bot := false; author_id := 1; guild_id := Some 1; channel_id := 7;
     channel_parent := None; content := lit "list the files" |}.

Definition toy_chat_bot : Bot := (ModeStore_set 7 chat_mode (toy_bot toy_dirs)).2.

(** ** Words for the properties of the rest of the code *)

(** What [json.load] gives back for a snapshot that [json.dump] wrote:
    every value is a string. *)
Definition jsonify (data : list (str * str)) : list (str * json) :=
  (fun kv => (kv.1, JStr kv.2)) <$> data.

(** Every directory a store holds is a normalized absolute path that has
    the store's root as a prefix of its text. *)
Definition cwd_prefixed (s : CwdStore) : Prop :=
  forall k v, cs_cwd s !! k = Some v ->
    normal_abs v /\ startswith v (cs_base s) = true.

Definition is_send (e : event) : bool :=
  match e with EvSend _ => true | _ => false end.

Definition is_spawn (e : event) : bool :=
  match e with EvSpawn _ _ => true | _ => false end.

(** The number of processes a log shows as started, and of messages as
    sent. *)
Definition spawns (l : list event) : nat := length (List.filter is_spawn l).
Definition sends (l : list event) : nat := length (List.filter is_send l).

Section Frames.

Context {H : Host}.

(** What handling may do to the state: the mode store, the root and the
    snapshot path of the directory store stay, the invariant of the
    directory store is kept, and the log only grows. *)
Definition extends (b b' : Bot) : Prop :=
  mode_store b' = mode_store b
  /\ cs_base (cwd_store b') = cs_base (cwd_store b)
  /\ cs_path (cwd_store b') = cs_path (cwd_store b)
  /\ (cwd_prefixed (cwd_store b) -> cwd_prefixed (cwd_store b'))
  /\ exists l, log b' = log b ++ l.

(** The same, with at most [k] processes started on the way. *)
Definition grows (k : nat) (b b' : Bot) : Prop :=
  mode_store b' = mode_store b
  /\ cs_base (cwd_store b') = cs_base (cwd_store b)
  /\ cs_path (cwd_store b') = cs_path (cwd_store b)
  /\ (cwd_prefixed (cwd_store b) -> cwd_prefixed (cwd_store b'))
  /\ exists l, log b' = log b ++ l /\ (spawns l <= k)%nat.

Definition within_budget {A} (k : nat) (m : M Bot A) : Prop :=
  forall b r b', m b = (r, b') -> grows k b b'.

End Frames.

(** ** The slash commands and the modal of [src/bot.py] *)

(** [os.path.dirname]: the text up to the last slash, without trailing
    slashes unless it is made of slashes only. *)
Definition dirname (p : str) : str :=
  let head := rev (lstrip_by (fun c => negb (ascii_eqb posixpath.sep c)) (rev p)) in
  if truthy head && negb (forallb (ascii_eqb posixpath.sep) head)
  then rstrip_by (ascii_eqb posixpath.sep) head
  else head.

(** What the slash commands and the modals need beyond [Host]: the
    [ALLOW_EVERYONE] variable, [os.makedirs(d, exist_ok=True)] and
    writing a text file. *)
Class Console {H : Host} := {
  ALLOW_EVERYONE : bool;
  makedirs : World -> str -> result World;
  write_text : World -> str -> str -> result World;
}.

(** An interaction: where it comes from, as for a message, and whether
    its user is an administrator of the guild. *)
Record Interaction := {
  origin : Message;
  administrator : bool;
}.

Section Commands.

Context {H : Host} {C : Console}.

Definition user_allowed (i : Interaction) : bool :=
  if ALLOW_EVERYONE then true
  else match guild_id (origin i) with
       | Some _ => administrator i
       | None => true
       end.

(** [f"Current directory: `{rel}`"] *)
Definition current_message (rel : str) : str :=
  lit "Current directory: " ++ backtick :: rel ++ [backtick].

(** The [cwd] command. The reply to the interaction is logged as a
    message sent. *)
Definition cwd_cmd (i : Interaction) (path : option str) : M Bot unit :=
  if negb (user_allowed i) then send (lit "Not authorized.")
  else if negb (_is_allowed_user (origin i)) then ret tt
  else if negb (_is_allowed_location (origin i)) then ret tt
  else
    let key := _channel_key_from_obj (origin i) in
    match path with
    | None =>
        cur <- CwdStore_get key ;;
        rel <- lift (posixpath.relpath getcwd cur (posixpath.abspath getcwd WORK_DIR)) ;;
        send (current_message rel)
    | Some p =>
        target <- _resolve_cd_target key (Some p) ;;
        try_except
          (newd <- CwdStore_set key target ;;
           msg <- lift (changed_message newd) ;;
           send msg)
          (fun e => send (failed_message e))
    end.

(** [f"Saved `{rel_path}` ({len(text)} bytes)."] *)
Definition saved_message (rel_path text : str) : str :=
  lit "Saved " ++ backtick :: rel_path ++ backtick :: lit " ("
  ++ str_of_int (len text) ++ lit " bytes).".

(** What both modals do once the user is let in and the path is read. *)
Definition save_file (rel_path text : str) : M Bot unit :=
  let base := posixpath.abspath getcwd WORK_DIR in
  let path := posixpath.abspath getcwd (posixpath.join base rel_path) in
  if negb (startswith path base) then send (lit "Invalid path.")
  else
    b <- get_bot ;;
    w1 <- lift (makedirs (world b) (dirname path)) ;;
    set_world w1 ;;;
    w2 <- lift (write_text w1 path text) ;;
    set_world w2 ;;;
    send (saved_message rel_path text).

(** [FileEditModal.on_submit], with the values of its two fields. *)
Definition FileEditModal_on_submit (i : Interaction) (filename content : str)
  : M Bot unit :=
  if negb (user_allowed i) then send (lit "Not authorized.")
  else save_file (strip filename) content.

(** [EditExistingFileModal.on_submit], with the path the modal was opened
    for and the value of its field. *)
Definition EditExistingFileModal_on_submit (i : Interaction) (rel_path content : str)
  : M Bot unit :=
  if negb (user_allowed i) then send (lit "Not authorized.")
  else save_file rel_path content.

End Commands.

(** ** More small hosts

    The small host with an oracle that gives [answer] to every prompt and
    a disk on which every snapshot reads as [disk]. *)
Definition scripted_host (answer : str) (disk : list (str * json)) : Host := {|
  World := list str;
  isdir w p := bool_decide (p ∈ w);
  getcwd := lit "/home/bot";
  getcwd_absolute := eq_refl;
  platform_system := lit "Linux";
  read_json _ _ := Some disk;
  write_json w _ _ := w;
  create_subprocess_exec w argv _ := Ok (toy_proc w (default [] (last argv)));
  decode x := x;
  generate_text _ := Ok answer;
  json_loads x := if bool_decide (x = lit "[]") then Some (JList []) else None;
  WORK_DIR := lit "/srv/box";
  DEFAULT_MODE := lit "command";
  COMMAND_TIMEOUT_SEC := 60;
  CHAT_MAX_STEPS := 5;
  MODE_STORE_PATH := lit ".data/modes.json";
  CWD_STORE_PATH := lit ".data/cwd.json";
  ALLOWED_GUILD_IDS := ∅;
  ALLOWED_CHANNEL_IDS := ∅;
  ALLOWED_USER_IDS := ∅;
|}.

(** The console of the small host: only administrators are let in, a
    directory that is made is added to the machine, and writing a file
    leaves the directories as they are. *)
#[export] Instance toy_console : Console (H := toy_host) := {|
  ALLOW_EVERYONE := false;
  makedirs w d := Ok (if bool_decide (d ∈ w) then w else d :: w);
  write_text w _ _ := Ok w;
|}.

(** A message of blanks only. *)
Definition toy_blank_message : Message :=
  {| author_bot := false; author_id := 1; guild_id := Some 1; channel_id := 7;
     channel_parent := None; content := lit "   " |}.

Definition toy_interaction : Interaction :=
  {| origin := toy_chat_message; administrator := true |}.

(** The toy bot with session 7 in [/srv/box/sub]. *)
Definition toy_sub_bot : Bot := stored (toy_bot toy_dirs) 7 (lit "/srv/box/sub").

(** Two sessions, one in a directory that exists and one in a directory
    that does not. *)
Definition toy_sessions : gmap Z str :=
  <[7 := lit "/srv/box/sub"]> (<[8 := lit "/srv/box/gone"]> ∅).

(** An answer of the oracle in a code fence with a language tag. *)
Definition fenced_answer : str :=
  lit "```" ++ lit "bash" ++ nl :: lit "ls" ++ nl :: lit "```".

(** * Properties *)

Import posixpath.

(** ** The output summarizer *)

Lemma len_app {A} (x y : list A) : len (x ++ y) = len x + len y.
Proof. unfold len. rewrite length_app. lia. Qed.

Lemma len_nonneg {A} (x : list A) : 0 <= len x.
Proof. unfold len. lia. Qed.

Lemma slice_to_first (text : str) (h : Z) :
  0 <= h <= len text -> slice_to text h = first_chars h text.
Proof.
  intros Hh. unfold slice_to, first_chars, clamp_index.
  destruct (Z.ltb_spec h 0); [lia|]. f_equal. lia.
Qed.

Lemma slice_from_last (text : str) (t : Z) :
  1 <= t <= len text -> slice_from text (- t) = last_chars t text.
Proof.
  intros Ht. unfold slice_from, last_chars, clamp_index, len in *.
  destruct (Z.ltb_spec (- t) 0); [|lia]. f_equal. lia.
Qed.

Lemma len_first_chars (text : str) (h : Z) :
  0 <= h <= len text -> len (first_chars h text) = h.
Proof.
  intros Hh. unfold first_chars, len in *. rewrite length_take. lia.
Qed.

Lemma len_last_chars (text : str) (t : Z) :
  0 <= t <= len text -> len (last_chars t text) = t.
Proof.
  intros Ht. unfold last_chars, len in *. rewrite length_drop. lia.
Qed.

Lemma digits_fuel_length (fuel : nat) : forall (n : Z) (acc : str) (k : nat),
  (1 <= k)%nat -> 0 <= n < 10 ^ Z.of_nat k ->
  (length (digits_fuel fuel n acc) <= length acc + k)%nat.
Proof.
  induction fuel as [|fuel IH]; intros n acc k Hk Hn; [simpl; lia|].
  cbn [digits_fuel].
  destruct (Z.ltb_spec n 10) as [Hlt|Hge]; [simpl; lia|].
  destruct k as [|[|k]]; [exfalso; clear -Hk; lia| exfalso; change (10 ^ Z.of_nat 1) with 10 in Hn; clear -Hn Hge; lia |].
  specialize (IH (n / 10) (digit (n mod 10) :: acc) (S k)).
  simpl length in IH.
  assert (0 <= n / 10 < 10 ^ Z.of_nat (S k)); [|lia].
  split; [apply Z.div_pos; lia|].
  apply Z.div_lt_upper_bound; [lia|].
  replace (Z.of_nat (S (S k))) with (1 + Z.of_nat (S k)) in Hn by lia.
  rewrite Z.pow_add_r in Hn by lia. lia.
Qed.

Lemma str_of_int_length (n : Z) (k : nat) :
  (1 <= k)%nat -> 0 <= n < 10 ^ Z.of_nat k -> len (str_of_int n) <= Z.of_nat k.
Proof.
  intros Hk Hn. unfold str_of_int, str_of_nonneg, len.
  destruct (Z.ltb_spec n 0); [lia|].
  pose proof (digits_fuel_length (S (Z.to_nat (Z.log2 n))) n [] k Hk Hn) as HL.
  change (length (@nil ascii) + k)%nat with k in HL. lia.
Qed.

(** The fuel of [str_of_nonneg] is enough: read back, the digits give the
    number. *)
Lemma digit_value (d : Z) :
  0 <= d < 10 -> is_digit (digit d) = true /\ digit_val (digit d) = d.
Proof.
  intros Hd.
  assert (d = 0 \/ d = 1 \/ d = 2 \/ d = 3 \/ d = 4 \/ d = 5 \/ d = 6
          \/ d = 7 \/ d = 8 \/ d = 9) as Hc by lia.
  repeat destruct Hc as [-> | Hc]; try subst d; by vm_compute.
Qed.

Lemma digits_fuel_value (fuel : nat) : forall (n : Z) (acc : str),
  0 <= n < 2 ^ Z.of_nat (S fuel) ->
  exists k, 0 <= k /\ forall a,
    digits_val a (digits_fuel (S fuel) n acc) = digits_val (a * 10 ^ k + n) acc.
Proof.
  induction fuel as [|fuel IH]; intros n acc Hn.
  - exists 1. split; [lia|]. intros a. cbn [digits_fuel].
    change (2 ^ Z.of_nat 1) with 2 in Hn.
    destruct (Z.ltb_spec n 10); [|lia].
    rewrite Z.mod_small by lia. cbn [digits_val].
    destruct (digit_value n) as [-> ->]; [lia|]. f_equal. lia.
  - cbn [digits_fuel]. destruct (Z.ltb_spec n 10) as [Hlt|Hge].
    + exists 1. split; [lia|]. intros a. rewrite Z.mod_small by lia.
      cbn [digits_val].
      destruct (digit_value n) as [-> ->]; [lia|]. f_equal. lia.
    + destruct (IH (n / 10) (digit (n mod 10) :: acc)) as (k & Hk0 & Hk).
      { split; [apply Z.div_pos; lia|].
        apply Z.div_lt_upper_bound; [lia|].
        replace (Z.of_nat (S (S fuel))) with (1 + Z.of_nat (S fuel)) in Hn by lia.
        rewrite Z.pow_add_r in Hn by lia. lia. }
      exists (1 + k). split; [lia|]. intros a.
      rewrite Hk. cbn [digits_val].
      destruct (digit_value (n mod 10)) as [-> ->]; [apply Z.mod_pos_bound; lia|].
      f_equal. rewrite Z.pow_add_r by lia.
      pose proof (Z.div_mod n 10). lia.
Qed.

Lemma str_of_nonneg_value (n : Z) :
  0 <= n -> digits_val 0 (str_of_nonneg n) = Some n.
Proof.
  intros Hn. unfold str_of_nonneg.
  destruct (digits_fuel_value (Z.to_nat (Z.log2 n)) n []) as (k & _ & Hk).
  { split; [done|]. rewrite Nat2Z.inj_succ, Z2Nat.id by apply Z.log2_nonneg.
    destruct (Z.eq_dec n 0) as [-> | Hne]; [reflexivity|].
    apply Z.log2_spec. lia. }
  by rewrite Hk.
Qed.

(** The two constants are the doubles nearest to 6/10 and 35/100: the
    distance is at most half a unit in the last place. *)
Lemma float_literals_nearest :
  match Float.c_0_6, Float.c_0_35 with
  | S754_finite false m6 e6, S754_finite false m35 e35 =>
      e6 = -53 /\ Z.abs (10 * Zpos m6 - 6 * 2 ^ 53) <= 5
      /\ e35 = -54 /\ Z.abs (100 * Zpos m35 - 35 * 2 ^ 54) <= 50
  | _, _ => False
  end.
Proof. cbv [Float.c_0_6 Float.c_0_35]. repeat split; vm_compute; discriminate. Qed.

Lemma len_omitted_marker (n : Z) : len (omitted_marker n) = 26 + len (str_of_int n).
Proof.
  unfold omitted_marker, len. simpl. repeat (rewrite ?length_app; simpl). lia.
Qed.

Lemma int_mul_1800_head : Float.int_mul 1800 Float.c_0_6 = Ok 1080.
Proof. vm_compute. reflexivity. Qed.

Lemma int_mul_1800_tail : Float.int_mul 1800 Float.c_0_35 = Ok 630.
Proof. vm_compute. reflexivity. Qed.

Lemma summarize_output_short (text : str) (limit : Z) :
  len text <= limit -> summarize_output text limit = Ok text.
Proof.
  intros Hle. unfold summarize_output.
  destruct (Z.leb_spec (len text) limit); [reflexivity | lia].
Qed.

Lemma summarize_output_long (text : str) (limit h t : Z) :
  limit < len text ->
  Float.int_mul limit Float.c_0_6 = Ok h ->
  Float.int_mul limit Float.c_0_35 = Ok t ->
  0 <= h -> 1 <= t -> h + t <= limit ->
  summarize_output text limit
  = Ok (first_chars h text ++ omitted_marker (len text - h - t) ++ last_chars t text).
Proof.
  intros Hlong Hh Ht H0 H1 Hsum. unfold summarize_output.
  destruct (Z.leb_spec (len text) limit); [lia|].
  rewrite Hh. simpl. rewrite Ht. simpl.
  rewrite slice_to_first, slice_from_last by lia.
  rewrite len_first_chars, len_last_chars by lia. reflexivity.
Qed.

Lemma split_ok_range (limit : Z) : 3 <= limit <= 4096 -> split_ok limit = true.
Proof.
  intros Hr.
  assert (Hall : forallb split_ok (seqZ 3 4094) = true) by (vm_compute; reflexivity).
  rewrite forallb_forall in Hall. apply Hall.
  apply list_elem_of_In, elem_of_seqZ. lia.
Qed.

(** C5, amended: for a text longer than the limit, with [h] and [t] the
    head and tail lengths as the code computes them (the binary64
    products [limit * 0.6] and [limit * 0.35] truncated toward zero), and
    as long as [h] is not negative, [t] is at least one and both fit in
    the limit, the summary is the first [h] characters, the marker with
    [n], and the last [t] characters, where [n], the length of the text
    minus [h] and [t], is positive. *)
Theorem summarize_output_head_tail (text : str) (limit h t : Z) :
  limit < len text ->
  Float.int_mul limit Float.c_0_6 = Ok h ->
  Float.int_mul limit Float.c_0_35 = Ok t ->
  0 <= h -> 1 <= t -> h + t <= limit ->
  summarize_output text limit
  = Ok (first_chars h text ++ omitted_marker (len text - h - t) ++ last_chars t text)
  /\ len (first_chars h text) = h
  /\ len (last_chars t text) = t
  /\ 0 < len text - h - t.
Proof.
  intros Hlong Hh Ht H0 H1 Hsum. split; [|repeat split].
  - by apply summarize_output_long.
  - apply len_first_chars. lia.
  - apply len_last_chars. lia.
  - lia.
Qed.

Lemma summarize_output_head_tail_default (text : str) :
  1800 < len text ->
  summarize_output_default text
  = Ok (first_chars 1080 text ++ omitted_marker (len text - 1710) ++ last_chars 630 text).
Proof.
  intros Hlong. unfold summarize_output_default.
  rewrite (summarize_output_long text 1800 1080 630);
    auto using int_mul_1800_head, int_mul_1800_tail; try lia.
  do 3 f_equal. f_equal. lia.
Qed.

(** C4, amended: a text no longer than the limit is returned as it is,
    for every limit; and with the default limit of 1800 the summary of a
    text of fewer than 10^64 characters is its own summary. *)
Theorem summarize_output_idempotent_default (text : str) (limit : Z) :
  (len text <= limit -> summarize_output text limit = Ok text)
  /\ (len text < 10 ^ 64 ->
      exists r, summarize_output_default text = Ok r
                /\ summarize_output_default r = Ok r).
Proof.
  split; [apply summarize_output_short|]. intros Hsmall.
  destruct (Z.le_gt_cases (len text) 1800) as [Hle|Hgt].
  - exists text. split; by apply summarize_output_short.
  - eexists. split; [by apply summarize_output_head_tail_default|].
    apply summarize_output_short.
    rewrite !len_app, len_omitted_marker, len_first_chars, len_last_chars by lia.
    pose proof (str_of_int_length (len text - 1710) 64) as Hd.
    change (Z.of_nat 64) with 64 in Hd. lia.
Qed.

(** C4 as stated fails for a small limit: with the limit 10 the summary
    of eleven characters is 36 characters long, and summarizing it again
    changes the count in the marker. *)
Lemma summarize_output_not_idempotent_small :
  summarize_output (lit "abcdefghijk") 10
  = Ok (lit "abcdef" ++ omitted_marker 2 ++ lit "ijk")
  /\ summarize_output (lit "abcdef" ++ omitted_marker 2 ++ lit "ijk") 10
     = Ok (lit "abcdef" ++ omitted_marker 27 ++ lit "ijk")
  /\ lit "abcdef" ++ omitted_marker 27 ++ lit "ijk"
     <> lit "abcdef" ++ omitted_marker 2 ++ lit "ijk".
Proof. repeat split; [vm_compute; reflexivity .. | vm_compute; discriminate]. Qed.

(** C5 as stated fails twice. With the limit 2 the tail length is 0 and
    the slice from [-0] is the whole text, so the count is -1. With the
    limit 180 the binary64 product [180 * 0.35] is just below 63 and the
    tail has 62 characters, not 63. *)
Lemma summarize_output_differs_from_claimed :
  (summarize_output (lit "abc") 2 = Ok (lit "a" ++ omitted_marker (-1) ++ lit "abc")
   /\ claimed_summary (lit "abc") 2 = lit "a" ++ omitted_marker 2
   /\ Ok (claimed_summary (lit "abc") 2) <> summarize_output (lit "abc") 2)
  /\ (summarize_output (repeat "a"%char 181) 180
      = Ok (repeat "a"%char 108 ++ omitted_marker 11 ++ repeat "a"%char 62)
      /\ claimed_summary (repeat "a"%char 181) 180
         = repeat "a"%char 108 ++ omitted_marker 10 ++ repeat "a"%char 63
      /\ Ok (claimed_summary (repeat "a"%char 181) 180)
         <> summarize_output (repeat "a"%char 181) 180).
Proof.
  split; (split; [vm_compute; reflexivity|]);
    (split; [vm_compute; reflexivity | vm_compute; discriminate]).
Qed.

Lemma summarize_output_idempotent_default_witness :
  summarize_output (lit "abc") 10 = Ok (lit "abc")
  /\ exists r, summarize_output_default (repeat "a"%char 2000) = Ok r
               /\ summarize_output_default r = Ok r.
Proof.
  split.
  - apply (summarize_output_idempotent_default (lit "abc") 10). vm_compute. discriminate.
  - apply (summarize_output_idempotent_default (repeat "a"%char 2000) 1800).
    vm_compute. reflexivity.
Defined.

Lemma summarize_output_head_tail_witness :
  summarize_output (lit "abcdefghijk") 10
  = Ok (first_chars 6 (lit "abcdefghijk") ++ omitted_marker (len (lit "abcdefghijk") - 6 - 3)
        ++ last_chars 3 (lit "abcdefghijk"))
  /\ len (first_chars 6 (lit "abcdefghijk")) = 6
  /\ len (last_chars 3 (lit "abcdefghijk")) = 3
  /\ 0 < len (lit "abcdefghijk") - 6 - 3.
Proof.
  apply (summarize_output_head_tail (lit "abcdefghijk") 10 6 3);
    first [reflexivity | vm_compute; congruence | lia].
Defined.

(** ** Paths *)

Lemma ascii_eqb_eq (a b : ascii) : ascii_eqb a b = true <-> a = b.
Proof. apply Ascii.eqb_eq. Qed.

Lemma ascii_eqb_refl (a : ascii) : ascii_eqb a a = true.
Proof. by apply ascii_eqb_eq. Qed.

Lemma startswith_app (x y : str) : startswith (x ++ y) x = true.
Proof. induction x as [|a x IH]; cbn [startswith app]; [done|]. by rewrite ascii_eqb_refl. Qed.

Lemma startswith_refl (x : str) : startswith x x = true.
Proof. rewrite <- (app_nil_r x) at 1. apply startswith_app. Qed.

Lemma startswith_sep (x : str) :
  startswith x [sep] = true <-> exists y, x = sep :: y.
Proof.
  destruct x as [|a x]; cbn [startswith].
  - split; [done | by intros [? ?]].
  - rewrite andb_true_r, ascii_eqb_eq. split.
    + intros <-. by eexists.
    + by intros [? [= <- _]].
Qed.

Lemma split_on_no_sep (x : str) :
  Forall (Forall (fun a => a <> sep)) (split_on sep x).
Proof.
  induction x as [|a x IH]; simpl; [by repeat constructor|].
  destruct (ascii_eqb a sep) eqn:E.
  - by constructor.
  - assert (a <> sep) as Ha by (intros ->; by rewrite ascii_eqb_refl in E).
    destruct (split_on sep x) as [|h t]; [by repeat constructor|].
    inversion IH; subst. by repeat constructor.
Qed.

Lemma split_on_single (x : str) :
  Forall (fun a => a <> sep) x -> split_on sep x = [x].
Proof.
  induction 1 as [|a x Ha _ IH]; simpl; [done|].
  destruct (ascii_eqb a sep) eqn:E; [by apply ascii_eqb_eq in E|].
  by rewrite IH.
Qed.

Lemma split_on_app_sep (x y : str) :
  Forall (fun a => a <> sep) x ->
  split_on sep (x ++ sep :: y) = x :: split_on sep y.
Proof.
  induction 1 as [|a x Ha _ IH]; simpl.
  - done.
  - destruct (ascii_eqb a sep) eqn:E; [by apply ascii_eqb_eq in E|].
    by rewrite IH.
Qed.

Lemma split_on_join (comps : list str) :
  comps <> [] -> Forall (Forall (fun a => a <> sep)) comps ->
  split_on sep (join_with sep comps) = comps.
Proof.
  induction comps as [|c comps IH]; [done|]. intros _ Hall.
  inversion Hall as [|? ? Hc Hrest]; subst.
  destruct comps as [|c' comps]; simpl.
  - by apply split_on_single.
  - rewrite split_on_app_sep by done. f_equal. by apply IH.
Qed.

Lemma str_eqb_true (a b : str) : str_eqb a b = true <-> a = b.
Proof. unfold str_eqb. by rewrite bool_decide_eq_true. Qed.

Lemma str_eqb_false (a b : str) : str_eqb a b = false <-> a <> b.
Proof. unfold str_eqb. by rewrite bool_decide_eq_false. Qed.

Lemma Forall_removelast {A} (P : A -> Prop) (l : list A) :
  Forall P l -> Forall P (removelast l).
Proof.
  induction 1 as [|x l Hx Hl IH]; simpl; [done|].
  destruct l; [done|]. by constructor.
Qed.

(** On an absolute path the loop only ever holds clean components. *)
Lemma norm_step_clean (s : nat) (acc : list str) (comp : str) :
  (1 <= s)%nat -> Forall (fun a => a <> sep) comp ->
  Forall clean acc -> Forall clean (norm_step s acc comp).
Proof.
  intros Hs Hcomp Hacc. unfold norm_step.
  destruct (str_eqb comp []) eqn:E1; [done|].
  destruct (str_eqb comp dot) eqn:E2; [done|]. simpl.
  apply str_eqb_false in E1, E2.
  destruct (str_eqb comp dotdot) eqn:E3; simpl.
  - destruct s; [lia|]. simpl.
    assert (bool_decide (last acc = Some dotdot) = false) as ->.
    { apply bool_decide_eq_false. intros E5.
      apply last_Some in E5 as [l' ->].
      apply Forall_app in Hacc as [_ Hl]. inversion Hl as [|? ? Hd _]; subst.
      by destruct Hd as (_ & _ & ? & _). }
    rewrite andb_false_r. by apply Forall_removelast.
  - apply str_eqb_false in E3. apply Forall_app. split; [done|].
    by repeat constructor.
Qed.

Lemma fold_norm_step_clean (s : nat) (comps acc : list str) :
  (1 <= s)%nat -> Forall (Forall (fun a => a <> sep)) comps ->
  Forall clean acc -> Forall clean (fold_left (norm_step s) comps acc).
Proof.
  intros Hs. revert acc. induction comps as [|c comps IH]; intros acc Hc Hacc; [done|].
  inversion Hc; subst. simpl. apply IH; [done|]. by apply norm_step_clean.
Qed.

(** Clean components pass through the loop unchanged. *)
Lemma fold_norm_step_id (s : nat) (comps acc : list str) :
  Forall clean comps -> fold_left (norm_step s) comps acc = acc ++ comps.
Proof.
  revert acc. induction comps as [|c comps IH]; intros acc Hc; simpl.
  - by rewrite app_nil_r.
  - inversion Hc as [|? ? (H1 & H2 & H3 & H4) Hrest]; subst.
    rewrite IH by done.
    assert (norm_step s acc c = acc ++ [c]) as ->.
    { unfold norm_step. apply str_eqb_false in H1, H2, H3.
      by rewrite H1, H2, H3. }
    by rewrite <- app_assoc.
Qed.

Lemma join_with_clean_head (comps : list str) :
  Forall clean comps -> startswith (join_with sep comps) [sep] = false.
Proof.
  destruct comps as [|c comps]; [done|]. intros Hc.
  inversion Hc as [|? ? (H1 & _ & _ & H4) _]; subst.
  destruct c as [|a c]; [done|]. inversion H4; subst.
  assert (ascii_eqb sep a = false) as E.
  { destruct (ascii_eqb sep a) eqn:E; [|done]. by apply ascii_eqb_eq in E. }
  destruct comps; simpl; by rewrite E.
Qed.

Lemma clean_no_sep (comps : list str) :
  Forall clean comps -> Forall (Forall (fun a => a <> sep)) comps.
Proof. intros Hc. eapply Forall_impl; [exact Hc|]. by intros ? (_ & _ & _ & ?). Qed.

Lemma initial_slashes_abs (p : str) :
  startswith p [sep] = true -> (initial_slashes p = 1 \/ initial_slashes p = 2)%nat.
Proof.
  intros Hp. unfold initial_slashes. rewrite Hp.
  destruct (_ && _); auto.
Qed.

Lemma normpath_abs (p : str) :
  startswith p [sep] = true -> normal_abs (normpath p).
Proof.
  intros Hp. pose proof (initial_slashes_abs p Hp) as Hs.
  exists (initial_slashes p), (fold_left (norm_step (initial_slashes p)) (split_on sep p) []).
  split; [done|]. split.
  - apply fold_norm_step_clean; [lia | apply split_on_no_sep | done].
  - unfold normpath. apply startswith_sep in Hp as [y ->]. simpl truthy. simpl negb.
    cbv iota. destruct Hs as [-> | ->]; reflexivity.
Qed.

Lemma normal_abs_initial_slashes (s : nat) (comps : list str) :
  (s = 1 \/ s = 2)%nat -> Forall clean comps ->
  initial_slashes (repeat sep s ++ join_with sep comps) = s.
Proof.
  intros Hs Hc. pose proof (join_with_clean_head comps Hc) as Hj.
  unfold initial_slashes.
  destruct Hs as [-> | ->]; simpl; rewrite ?ascii_eqb_refl; simpl.
  - destruct (join_with sep comps) as [|a j]; [done|].
    simpl in Hj. rewrite andb_true_r in Hj. by rewrite Hj.
  - destruct (join_with sep comps) as [|a j]; [done|].
    simpl in Hj. rewrite andb_true_r in Hj. by rewrite Hj.
Qed.

Lemma normal_abs_fold (s : nat) (comps : list str) :
  (s = 1 \/ s = 2)%nat -> Forall clean comps ->
  fold_left (norm_step s) (split_on sep (repeat sep s ++ join_with sep comps)) []
  = comps.
Proof.
  intros Hs Hc.
  assert (fold_left (norm_step s) (split_on sep (join_with sep comps)) [] = comps) as Hj.
  { destruct comps as [|c comps]; [done|].
    rewrite split_on_join by (done || by apply clean_no_sep).
    by rewrite fold_norm_step_id. }
  destruct Hs as [-> | ->]; simpl; rewrite ?ascii_eqb_refl; simpl; exact Hj.
Qed.

Lemma normpath_normal_abs (p : str) : normal_abs p -> normpath p = p.
Proof.
  intros (s & comps & Hs & Hc & ->). unfold normpath.
  rewrite normal_abs_initial_slashes, normal_abs_fold by done.
  destruct Hs as [-> | ->]; reflexivity.
Qed.

Lemma normal_abs_isabs (p : str) : normal_abs p -> isabs p = true.
Proof. intros (s & comps & [-> | ->] & _ & ->); simpl; by rewrite ?ascii_eqb_refl. Qed.

Lemma join_abs (a b : str) : isabs a = true -> isabs (join a b) = true.
Proof.
  unfold isabs, join. intros Ha.
  destruct (startswith b [sep]) eqn:Hb; [done|].
  apply startswith_sep in Ha as [y ->].
  destruct (_ || _); simpl; by rewrite ?ascii_eqb_refl.
Qed.

Lemma abspath_normal (cwd p : str) :
  isabs cwd = true -> normal_abs (abspath cwd p).
Proof.
  intros Hcwd. unfold abspath. destruct (isabs p) eqn:Hp.
  - by apply normpath_abs.
  - apply normpath_abs. by apply join_abs.
Qed.

Lemma abspath_of_normal (cwd p : str) : normal_abs p -> abspath cwd p = p.
Proof.
  intros Hp. unfold abspath. rewrite (normal_abs_isabs p Hp).
  by apply normpath_normal_abs.
Qed.

Lemma abspath_idempotent (cwd p : str) :
  isabs cwd = true -> abspath cwd (abspath cwd p) = abspath cwd p.
Proof. intros Hcwd. by apply abspath_of_normal, abspath_normal. Qed.

Lemma normal_abs_truthy (p : str) : normal_abs p -> truthy p = true.
Proof. intros (s & comps & [-> | ->] & _ & ->); reflexivity. Qed.

Lemma common_prefix_len_refl (l : list str) : common_prefix_len l l = length l.
Proof.
  induction l as [|x l IH]; simpl; [done|].
  assert (str_eqb x x = true) as -> by by apply str_eqb_true. by rewrite IH.
Qed.

Lemma relpath_self (cwd p : str) :
  normal_abs p -> relpath cwd p p = Ok dot.
Proof.
  intros Hp. unfold relpath. rewrite (normal_abs_truthy p Hp). simpl.
  rewrite common_prefix_len_refl, Nat.sub_diag, drop_all. reflexivity.
Qed.

(** ** Patterns *)

Lemma star_greedy (cls : ascii -> bool) (k : re.cont) (pre rest : str) c r :
  forallb cls pre = true -> stops cls rest -> k rest c = Some r ->
  re.star cls k (pre ++ rest) c = Some r.
Proof.
  intros Hpre Hstop Hk. induction pre as [|a pre IH]; simpl.
  - destruct rest as [|b rest]; [done|]. simpl in *. by rewrite Hstop.
  - simpl in Hpre. apply andb_true_iff in Hpre as [-> Hpre].
    by rewrite IH.
Qed.

Lemma plus_greedy (cls : ascii -> bool) (k : re.cont) (pre rest : str) c r :
  pre <> [] -> forallb cls pre = true -> stops cls rest -> k rest c = Some r ->
  re.plus cls k (pre ++ rest) c = Some r.
Proof.
  intros Hne Hpre Hstop Hk. destruct pre as [|a pre]; [done|].
  simpl in *. apply andb_true_iff in Hpre as [-> Hpre].
  by apply star_greedy.
Qed.

Lemma strip_literal_app (p x : str) : re.strip_literal false p (p ++ x) = Some x.
Proof.
  induction p as [|a p IH]; simpl; [done|].
  unfold re.ch_eqb. by rewrite ascii_eqb_refl.
Qed.

Lemma literal_app (p x : str) (k : re.cont) c :
  re.literal false p k (p ++ x) c = k x c.
Proof. unfold re.literal. by rewrite strip_literal_app. Qed.

Lemma lstrip_by_split (p : ascii -> bool) (x : str) :
  exists pre, x = pre ++ lstrip_by p x /\ forallb p pre = true
              /\ stops p (lstrip_by p x).
Proof.
  induction x as [|a x (pre & Hx & Hpre & Hstop)]; simpl.
  - by exists [].
  - destruct (p a) eqn:E.
    + exists (a :: pre). simpl. rewrite E, Hpre. by rewrite <- Hx.
    + by exists [].
Qed.

Lemma forallb_lstrip_by (q p : ascii -> bool) (x : str) :
  forallb q x = true -> forallb q (lstrip_by p x) = true.
Proof.
  intros Hq. destruct (lstrip_by_split p x) as (pre & Hx & _ & _).
  rewrite Hx, forallb_app in Hq. by apply andb_true_iff in Hq as [_ ?].
Qed.

Lemma take_consumed (body rest : str) :
  take (length (body ++ rest) - length rest) (body ++ rest) = body.
Proof.
  rewrite length_app. replace (length body + length rest - length rest)%nat
    with (length body) by lia.
  apply take_app_length.
Qed.

(** The rest of the line is taken whole by the second group. *)
Lemma rest_of_line_match (r : str) (g1 : option str) :
  forallb re.any_but_newline r = true ->
  re.group 2 (re.star re.any_but_newline) (re.eol (fun _ c => Some c)) r (g1, None)
  = Some (g1, Some r).
Proof.
  intros Hr. unfold re.group.
  set (k := fun (x' : str) (c' : re.caps) => _).
  pose proof (star_greedy re.any_but_newline k r [] (g1, None) (g1, Some r) Hr I) as Hs.
  rewrite app_nil_r in Hs. apply Hs. unfold k. simpl.
  by rewrite Nat.sub_0_r, take_ge by lia.
Qed.

Lemma stops_not_sep_rest (t : cd_rest) : stops re.not_sep (rest_text t).
Proof. by destruct t. Qed.

(** The alternation of separators, then the second group, on what
    follows the path argument. *)
Lemma separator_match (t : cd_rest) (g1 : option str) :
  rest_single_line t ->
  re.seq (re.alt (re.seq (re.star isspace) (re.literal false (lit ";")))
         (re.alt (re.seq (re.star isspace)
                 (re.seq (re.literal false (lit "&&")) (re.star isspace)))
                 (re.seq (re.star isspace) re.eol)))
         (re.seq (re.group 2 (re.star re.any_but_newline)) re.eol)
         (fun _ c => Some c) (rest_text t) (g1, None)
  = Some (g1, Some (rest_group t)).
Proof.
  intros Hline. destruct t as [|r|r]; simpl in Hline.
  - reflexivity.
  - unfold re.seq, re.alt. cbn [rest_text rest_group].
    change (re.star isspace ?k (";"%char :: r) ?c) with (k (";"%char :: r) c).
    change (re.literal false (lit ";") ?k (";"%char :: r) ?c) with (k r c).
    cbv beta. by rewrite rest_of_line_match.
  - unfold re.seq, re.alt. cbn [rest_text rest_group].
    destruct (lstrip_by_split isspace r) as (pre & Hr & Hpre & Hstop).
    change (re.star isspace ?k (lit "&&" ++ r) ?c) with (k (lit "&&" ++ r) c).
    change (re.literal false (lit ";") ?k (lit "&&" ++ r) ?c) with (@None re.caps).
    cbv beta iota.
    rewrite literal_app. rewrite Hr at 1.
    erewrite star_greedy; [reflexivity | done | done |].
    apply rest_of_line_match. by apply forallb_lstrip_by.
Qed.

Lemma cd_tail_match (ws body : str) (t : cd_rest) :
  ws <> [] -> forallb isspace ws = true ->
  body <> [] -> forallb re.not_sep body = true -> stops isspace body ->
  rest_single_line t ->
  cd_tail (fun _ c => Some c) (ws ++ body ++ rest_text t) (None, None)
  = Some (Some body, Some (rest_group t)).
Proof.
  intros Hws1 Hws2 Hb1 Hb2 Hb3 Hline. unfold cd_tail.
  unfold re.seq at 1.
  apply plus_greedy; [done | done | by destruct body |].
  unfold re.seq at 1. unfold re.group at 1.
  apply plus_greedy; [done | done | apply stops_not_sep_rest |].
  rewrite take_consumed. cbn [re.set_group fst snd].
  by apply separator_match.
Qed.

Lemma cd_pattern_unix_match (ws body : str) (t : cd_rest) :
  ws <> [] -> forallb isspace ws = true ->
  body <> [] -> forallb re.not_sep body = true -> stops isspace body ->
  rest_single_line t ->
  re.match_ cd_pattern_unix (lit "cd" ++ ws ++ body ++ rest_text t)
  = Some (Some body, Some (rest_group t)).
Proof.
  intros. unfold re.match_, cd_pattern_unix, re.seq at 1.
  rewrite literal_app. by apply cd_tail_match.
Qed.

Lemma strip_literal_ignorecase (p tok x : str) :
  map lower tok = map lower p -> re.strip_literal true p (tok ++ x) = Some x.
Proof.
  revert tok. induction p as [|a p IH]; intros [|c tok] Heq; try discriminate.
  - reflexivity.
  - injection Heq as Hc Heq. simpl. unfold re.ch_eqb.
    rewrite Hc, ascii_eqb_refl. by apply IH.
Qed.

Lemma cd_pattern_windows_match (tok ws body : str) (t : cd_rest) :
  cd_token_text true tok ->
  ws <> [] -> forallb isspace ws = true ->
  body <> [] -> forallb re.not_sep body = true -> stops isspace body ->
  rest_single_line t ->
  re.match_ cd_pattern_windows (tok ++ ws ++ body ++ rest_text t)
  = Some (Some body, Some (rest_group t)).
Proof.
  intros [Htok|Htok] Hws1 Hws2 Hb1 Hb2 Hb3 Hline;
    unfold re.match_, cd_pattern_windows, re.seq at 1, cd_token, re.alt, re.literal.
  - assert (re.strip_literal true (lit "Set-Location")
              (tok ++ ws ++ body ++ rest_text t) = None) as ->.
    { destruct tok as [|c tok]; [discriminate|]. injection Htok as Hc _.
      simpl. unfold re.ch_eqb. by rewrite Hc. }
    rewrite (strip_literal_ignorecase (lit "cd")) by done.
    by apply cd_tail_match.
  - rewrite (strip_literal_ignorecase (lit "Set-Location")) by done.
    by rewrite cd_tail_match.
Qed.

Lemma cd_pattern_match (is_windows : bool) (tok ws body : str) (t : cd_rest) :
  cd_token_text is_windows tok ->
  ws <> [] -> forallb isspace ws = true ->
  body <> [] -> forallb re.not_sep body = true -> stops isspace body ->
  rest_single_line t ->
  re.match_ (if is_windows then cd_pattern_windows else cd_pattern_unix)
    (tok ++ ws ++ body ++ rest_text t)
  = Some (Some body, Some (rest_group t)).
Proof.
  destruct is_windows.
  - apply cd_pattern_windows_match.
  - intros ->. apply cd_pattern_unix_match.
Qed.

Lemma cd_token_text_truthy (is_windows : bool) (tok x : str) :
  cd_token_text is_windows tok -> truthy (tok ++ x) = true.
Proof.
  destruct is_windows; [intros [Ht|Ht] | intros ->]; [| |done];
    by destruct tok.
Qed.

Lemma strip_lstrip (x : str) : strip (lstrip_by isspace x) = strip x.
Proof.
  unfold strip, strip_by. f_equal.
  induction x as [|a x IH]; simpl; [done|].
  destruct (isspace a) eqn:E; [done|]. simpl. by rewrite E.
Qed.

Lemma rest_group_strip (t : cd_rest) : strip (rest_group t) = rest_command t.
Proof. destruct t; simpl; [done | done | apply strip_lstrip]. Qed.

Section Properties.

Context {H : Host}.

(** ** The directory sandbox *)

Lemma CwdStore_get_eq (key : Z) (b : Bot) :
  CwdStore_get key b = (Ok (current_dir b key), b).
Proof. reflexivity. Qed.

Lemma CwdStore_set_eq (key : Z) (new_dir : str) (b : Bot) :
  CwdStore_set key new_dir b
  = let absd := abspath getcwd new_dir in
    if negb (startswith absd (cs_base (cwd_store b))) then
      (Raise (ValueError (lit "Path escapes WORK_DIR sandbox")), b)
    else if negb (isdir (world b) absd) then
      (Raise (FileNotFoundError (lit "Directory does not exist")), b)
    else (Ok absd, stored b key absd).
Proof.
  unfold CwdStore_set, bind, get_bot, get_state. cbv zeta.
  destruct (negb (startswith _ _)); [reflexivity|].
  destruct (negb (isdir _ _)); [reflexivity|].
  unfold set_cwd_store, CwdStore__persist, bind, get_bot, get_state, stored. simpl.
  destruct (negb (truthy_opt _)); reflexivity.
Qed.

Lemma CwdStore_set_out_of_sandbox (key : Z) (new_dir : str) (b : Bot) :
  startswith (abspath getcwd new_dir) (cs_base (cwd_store b)) = false ->
  CwdStore_set key new_dir b
  = (Raise (ValueError (lit "Path escapes WORK_DIR sandbox")), b).
Proof. intros Hout. rewrite CwdStore_set_eq. cbv zeta. by rewrite Hout. Qed.

Lemma CwdStore_set_not_a_directory (key : Z) (new_dir : str) (b : Bot) :
  startswith (abspath getcwd new_dir) (cs_base (cwd_store b)) = true ->
  isdir (world b) (abspath getcwd new_dir) = false ->
  CwdStore_set key new_dir b
  = (Raise (FileNotFoundError (lit "Directory does not exist")), b).
Proof. intros Hin Hdir. rewrite CwdStore_set_eq. cbv zeta. by rewrite Hin, Hdir. Qed.

Lemma CwdStore_set_stores (key : Z) (new_dir : str) (b : Bot) :
  startswith (abspath getcwd new_dir) (cs_base (cwd_store b)) = true ->
  isdir (world b) (abspath getcwd new_dir) = true ->
  CwdStore_set key new_dir b
  = (Ok (abspath getcwd new_dir), stored b key (abspath getcwd new_dir)).
Proof. intros Hin Hdir. rewrite CwdStore_set_eq. cbv zeta. by rewrite Hin, Hdir. Qed.

(** A failed [set] raises one of the two errors and changes nothing. *)
Lemma CwdStore_set_failure_frame (key : Z) (new_dir : str) (b b' : Bot) (e : exn) :
  CwdStore_set key new_dir b = (Raise e, b') ->
  b' = b
  /\ (e = ValueError (lit "Path escapes WORK_DIR sandbox")
      \/ e = FileNotFoundError (lit "Directory does not exist"))
  /\ forall k, CwdStore_get k b' = CwdStore_get k b.
Proof.
  rewrite CwdStore_set_eq. cbv zeta.
  destruct (negb (startswith _ _)); [intros [= <- <-]; auto|].
  destruct (negb (isdir _ _)); [intros [= <- <-]; auto|]. discriminate.
Qed.

Lemma current_dir_stored (b : Bot) (key : Z) (absd : str) :
  current_dir (stored b key absd) key = absd.
Proof. unfold current_dir, stored. simpl. by rewrite lookup_insert_eq. Qed.

Lemma current_dir_stored_ne (b : Bot) (key k : Z) (absd : str) :
  k <> key -> current_dir (stored b key absd) k = current_dir b k.
Proof. intros Hne. unfold current_dir, stored. simpl. by rewrite lookup_insert_ne. Qed.

(** ** The interceptor *)

Lemma truthy_strip (x : str) : truthy (strip x) = true -> truthy x = true.
Proof. by destruct x. Qed.

Lemma _resolve_cd_target_arg (key : Z) (arg : str) (b : Bot) :
  truthy (strip arg) = true ->
  _resolve_cd_target key (Some arg) b
  = (Ok (abspath getcwd (join (current_dir b key) (strip arg))), b).
Proof.
  intros Harg. unfold _resolve_cd_target. simpl.
  by rewrite (truthy_strip _ Harg), Harg.
Qed.

Lemma _resolve_cd_target_some (key : Z) (arg : str) (b : Bot) :
  _resolve_cd_target key (Some arg) b
  = (Ok (if truthy (strip arg)
         then abspath getcwd (join (current_dir b key) (strip arg))
         else abspath getcwd WORK_DIR), b).
Proof.
  destruct (truthy (strip arg)) eqn:Harg.
  - by apply _resolve_cd_target_arg.
  - unfold _resolve_cd_target. simpl. rewrite Harg.
    by rewrite orb_true_r.
Qed.

Lemma _resolve_cd_target_none (key : Z) (b : Bot) :
  _resolve_cd_target key None b = (Ok (abspath getcwd WORK_DIR), b).
Proof. reflexivity. Qed.

Lemma changed_message_root :
  changed_message (abspath getcwd WORK_DIR)
  = Ok (lit "Changed directory to `.`").
Proof.
  unfold changed_message.
  rewrite relpath_self by apply abspath_normal, getcwd_absolute. reflexivity.
Qed.

Lemma changed_message_total (cwd p : str) :
  exists msg, changed_message (abspath getcwd p) = Ok msg.
Proof.
  unfold changed_message, relpath.
  rewrite (normal_abs_truthy (abspath getcwd p))
    by apply abspath_normal, getcwd_absolute.
  simpl. destruct (_ ++ _); simpl; eauto.
Qed.

Lemma bare_cd_unix :
  re.match_ cd_pattern_unix (lit "cd") = None
  /\ is_Some (re.match_ (bare_cd_pattern false) (lit "cd")).
Proof. split; [reflexivity | by eexists]. Qed.

Lemma _resolve_cd_target_reads (key : Z) (arg : option str) (b : Bot) :
  exists p, _resolve_cd_target key arg b = (Ok p, b).
Proof.
  unfold _resolve_cd_target. destruct (_ || _); eexists; reflexivity.
Qed.

(** The interceptor sends nothing and starts nothing. *)
Lemma _preprocess_command_for_cwd_log (key : Z) (cmd : str) (is_windows : bool)
    (b b' : Bot) r :
  _preprocess_command_for_cwd key cmd is_windows b = (r, b') -> log b' = log b.
Proof.
  assert (Hset : forall A p (k : str -> M Bot A) (h : exn -> M Bot A) r0 b0,
             (forall x s, exists y, k x s = (y, s)) ->
             (forall e s, exists y, h e s = (y, s)) ->
             try_except (newd <- CwdStore_set key p ;; k newd) h b = (r0, b0) ->
             log b0 = log b).
  { intros A p k h r0 b0 Hk Hh. unfold try_except, bind.
    rewrite CwdStore_set_eq. cbv zeta.
    destruct (negb (startswith _ _)).
    { destruct (Hh (ValueError (lit "Path escapes WORK_DIR sandbox")) b) as [y ->].
      by intros [= _ <-]. }
    destruct (negb (isdir _ _)).
    { destruct (Hh (FileNotFoundError (lit "Directory does not exist")) b) as [y ->].
      by intros [= _ <-]. }
    destruct (Hk (abspath getcwd p) (stored b key (abspath getcwd p))) as [y ->].
    destruct y as [a|e].
    - by intros [= _ <-].
    - destruct (Hh e (stored b key (abspath getcwd p))) as [y ->].
      by intros [= _ <-]. }
  unfold _preprocess_command_for_cwd.
  destruct (negb (truthy (strip cmd))); [by intros [= _ <-]|].
  destruct (re.match_ _ (strip cmd)) as [[g1 g2]|].
  - unfold bind at 1.
    destruct (_resolve_cd_target_reads key
                (Some (strip_char squote (strip_char dquote (strip (default [] g1))))) b)
      as [p ->].
    apply Hset.
    + intros x s. destruct (truthy _); [by eexists|].
      unfold bind, lift, ret. destruct (changed_message x); by eexists.
    + intros e s. by eexists.
  - destruct (bool_decide _); [|by intros [= _ <-]].
    unfold bind at 1.
    destruct (_resolve_cd_target_reads key None b) as [p ->].
    apply Hset.
    + intros x s. unfold bind, lift, ret. destruct (changed_message x); by eexists.
    + intros e s. by eexists.
Qed.

(** C7, amended: on the unix family the bare [cd] resets the session's
    directory to the sandbox root and acknowledges it whenever the root
    exists as a directory; when it does not, the instruction yields the
    failure message and every session directory stays as it was. No
    residual command is returned either way. *)
Theorem bare_cd_resets_to_root (key : Z) (b : Bot) :
  cs_base (cwd_store b) = abspath getcwd WORK_DIR ->
  (isdir (world b) (abspath getcwd WORK_DIR) = true ->
   _preprocess_command_for_cwd key (lit "cd") false b
   = (Ok (None, Some (lit "Changed directory to `.`")),
      stored b key (abspath getcwd WORK_DIR))
   /\ current_dir (stored b key (abspath getcwd WORK_DIR)) key
      = abspath getcwd WORK_DIR)
  /\ (isdir (world b) (abspath getcwd WORK_DIR) = false ->
      _preprocess_command_for_cwd key (lit "cd") false b
      = (Ok (None, Some (lit "Failed to change directory: Directory does not exist")),
         b)).
Proof.
  intros Hbase.
  assert (Hin : startswith (abspath getcwd WORK_DIR)
                  (cs_base (cwd_store b)) = true).
  { rewrite Hbase. apply startswith_refl. }
  split; intros Hdir.
  - split; [|apply current_dir_stored].
    unfold _preprocess_command_for_cwd.
    change (strip (lit "cd")) with (lit "cd").
    change (negb (truthy (lit "cd"))) with false. cbv iota.
    destruct bare_cd_unix as [-> Hbare].
    rewrite bool_decide_eq_true_2 by done.
    unfold try_except, bind. rewrite _resolve_cd_target_none.
    rewrite CwdStore_set_stores
      by (rewrite ?abspath_idempotent by apply getcwd_absolute; done).
    rewrite abspath_idempotent by apply getcwd_absolute.
    unfold lift. by rewrite changed_message_root.
  - unfold _preprocess_command_for_cwd.
    change (strip (lit "cd")) with (lit "cd").
    change (negb (truthy (lit "cd"))) with false. cbv iota.
    destruct bare_cd_unix as [-> Hbare].
    rewrite bool_decide_eq_true_2 by done.
    unfold try_except, bind. rewrite _resolve_cd_target_none.
    rewrite CwdStore_set_not_a_directory
      by (rewrite ?abspath_idempotent by apply getcwd_absolute; done).
    reflexivity.
Qed.

(** C8, amended: a trimmed instruction that is not empty and that neither
    pattern recognizes comes back as the residual command, trimmed, with
    no acknowledgement, and the state is untouched. *)
Theorem unrecognized_passes_through (key : Z) (command : str)
    (is_windows : bool) (b : Bot) :
  truthy (strip command) = true ->
  recognized is_windows (strip command) = false ->
  _preprocess_command_for_cwd key command is_windows b
  = (Ok (Some (strip command), None), b).
Proof.
  intros Hne Hno. unfold recognized in Hno.
  apply orb_false_iff in Hno as [Hmain Hbare].
  unfold _preprocess_command_for_cwd. rewrite Hne. simpl negb. cbv iota.
  rewrite Hbare.
  apply bool_decide_eq_false in Hmain.
  destruct (re.match_ _ (strip command)) as [c|] eqn:E; [|reflexivity].
  exfalso. apply Hmain. by eexists.
Qed.

(** On the unix family an instruction that starts with neither token is
    not recognized. *)
Lemma recognized_needs_token (text : str) :
  re.strip_literal false (lit "cd") text = None ->
  re.strip_literal false (lit "Set-Location") text = None ->
  recognized false text = false.
Proof.
  intros Hcd Hsl. unfold recognized, re.match_, cd_pattern_unix, bare_cd_pattern,
    cd_token, re.seq, re.alt, re.literal.
  rewrite Hcd, Hsl. apply orb_false_iff.
  split; apply bool_decide_eq_false; by intros [? ?].
Qed.

(** C6: an instruction whose trimmed text is, on one line, the token of
    its family ([cd]; on the windows family also [Set-Location], in any
    letter case), blanks, a path argument and then nothing, or [;] or
    [&&] and the rest of the line. The argument, trimmed and unquoted,
    is joined to the session's current directory, or stands for the
    root when nothing is left of it, and is given to [set]. When [set]
    raises, the message of the failure comes back with no residual
    command and the state is as before; when it succeeds the session is
    in the resolved directory, and a remainder that is not empty comes
    back as the residual command with no acknowledgement, an empty one
    gives the acknowledgement. *)
Theorem cd_with_argument_applies_set (key : Z) (is_windows : bool)
    (command tok ws body : str) (t : cd_rest) (b : Bot) :
  cd_token_text is_windows tok ->
  strip command = tok ++ ws ++ body ++ rest_text t ->
  ws <> [] -> forallb isspace ws = true ->
  body <> [] -> forallb re.not_sep body = true -> stops isspace body ->
  rest_single_line t ->
  let arg := strip (strip_char squote (strip_char dquote (strip body))) in
  let target :=
    if truthy arg then abspath getcwd (join (current_dir b key) arg)
    else abspath getcwd WORK_DIR in
  match CwdStore_set key target b with
  | (Raise e, _) =>
      _preprocess_command_for_cwd key command is_windows b
      = (Ok (None, Some (failed_message e)), b)
  | (Ok newd, b') =>
      newd = target /\ current_dir b' key = target
      /\ if truthy (rest_command t)
         then _preprocess_command_for_cwd key command is_windows b
              = (Ok (Some (rest_command t), None), b')
         else exists msg,
             changed_message newd = Ok msg
             /\ _preprocess_command_for_cwd key command is_windows b
                = (Ok (None, Some msg), b')
  end.
Proof.
  intros Htok Htext Hws1 Hws2 Hb1 Hb2 Hb3 Hline arg target.
  assert (Hpre :
    _preprocess_command_for_cwd key command is_windows b
    = try_except
        (newd <- CwdStore_set key target ;;
         if truthy (rest_command t) then ret (Some (rest_command t), None)
         else msg <- lift (changed_message newd) ;; ret (None, Some msg))
        (fun e => ret (None, Some (failed_message e))) b).
  { unfold _preprocess_command_for_cwd. rewrite Htext.
    rewrite (cd_token_text_truthy is_windows tok) by done.
    cbn [negb]. cbv iota.
    rewrite (cd_pattern_match is_windows) by done. cbv beta iota zeta.
    simpl default. rewrite rest_group_strip.
    unfold try_except, bind. by rewrite _resolve_cd_target_some. }
  rewrite Hpre. clear Hpre.
  unfold try_except, bind. rewrite CwdStore_set_eq. cbv zeta.
  assert (Hidem : abspath getcwd target = target).
  { unfold target. destruct (truthy arg); apply abspath_idempotent, getcwd_absolute. }
  rewrite Hidem.
  destruct (negb (startswith _ _)); [reflexivity|].
  destruct (negb (isdir _ _)); [reflexivity|].
  split; [done|]. split; [apply current_dir_stored|].
  destruct (truthy (rest_command t)); [reflexivity|].
  assert (Hmsg : exists msg, changed_message target = Ok msg).
  { rewrite <- Hidem. apply (changed_message_total getcwd). }
  destruct Hmsg as [msg Hmsg].
  exists msg. split; [done|].
  unfold lift, ret. by rewrite Hmsg.
Qed.

(** ** The invoker *)

(** C3: when the process runs longer than the timeout, [run_command]
    kills it, waits for it, and returns the synthetic result with exit
    code 124, no output and the fixed message; nothing is raised. *)
Theorem run_command_timeout (cmd : str) (work_dir : option str) (t : Q)
    (proc : Proc World) (b : Bot) :
  create_subprocess_exec (world b) (wrap_command_for_shell cmd detect_os)
    (or_else work_dir getcwd) = Ok proc ->
  (t < p_duration proc)%Q ->
  run_command cmd work_dir (Some t) b
  = (Ok {| command := cmd; exit_code := 124; stdout := [];
           stderr := lit "Command timed out" |},
     {| mode_store := mode_store b; cwd_store := cwd_store b;
        world := p_killed proc;
        log := log b ++ [EvSpawn (wrap_command_for_shell cmd detect_os)
                           (or_else work_dir getcwd); EvKill; EvWait] |}).
Proof.
  intros Hspawn Hlate.
  unfold run_command, bind, get_bot, get_state, lift. rewrite Hspawn.
  unfold wait_for_communicate.
  assert (Qle_bool (p_duration proc) t = false) as ->.
  { destruct (Qle_bool (p_duration proc) t) eqn:E; [|done].
    apply Qle_bool_iff in E. by apply Qlt_not_le in Hlate. }
  unfold emit, set_world, ret. simpl.
  by rewrite <- !app_assoc.
Qed.

(** A process that ends within the deadline is not killed. *)
Lemma run_command_completes (cmd : str) (work_dir : option str) (t : Q)
    (proc : Proc World) (b : Bot) :
  create_subprocess_exec (world b) (wrap_command_for_shell cmd detect_os)
    (or_else work_dir getcwd) = Ok proc ->
  (p_duration proc <= t)%Q ->
  run_command cmd work_dir (Some t) b
  = (Ok {| command := cmd; exit_code := default 0 (p_returncode proc);
           stdout := if truthy (p_stdout proc) then decode (p_stdout proc) else [];
           stderr := if truthy (p_stderr proc) then decode (p_stderr proc) else [] |},
     {| mode_store := mode_store b; cwd_store := cwd_store b;
        world := p_done proc;
        log := log b ++ [EvSpawn (wrap_command_for_shell cmd detect_os)
                           (or_else work_dir getcwd)] |}).
Proof.
  intros Hspawn Hdone.
  unfold run_command, bind, get_bot, get_state, lift. rewrite Hspawn.
  unfold wait_for_communicate.
  apply Qle_bool_iff in Hdone. rewrite Hdone. reflexivity.
Qed.

(** What one invocation adds to the log: the spawn, and the kill and the
    wait when it timed out. Nothing is sent. *)
Lemma run_command_log (cmd : str) (work_dir : option str) (t : option Q)
    (b b' : Bot) (r : CommandResult) :
  run_command cmd work_dir t b = (Ok r, b') ->
  exists tail,
    log b' = log b ++ EvSpawn (wrap_command_for_shell cmd detect_os)
                        (or_else work_dir getcwd) :: tail
    /\ (tail = [] \/ tail = [EvKill; EvWait]).
Proof.
  unfold run_command, bind, get_bot, get_state, lift.
  destruct (create_subprocess_exec _ _ _) as [proc|e]; [|discriminate].
  destruct (wait_for_communicate proc t) as [[o e]|].
  - intros [= <- <-]. exists []. simpl. auto.
  - intros [= <- <-]. exists [EvKill; EvWait]. simpl.
    rewrite <- !app_assoc. auto.
Qed.

(** ** Reports *)

Lemma summarize_output_default_total (text : str) :
  exists r, summarize_output_default text = Ok r.
Proof.
  destruct (Z.le_gt_cases (len text) 1800).
  - exists text. by apply summarize_output_short.
  - eexists. by apply summarize_output_head_tail_default.
Qed.

Lemma report_total (head : str) (r : CommandResult) :
  exists tail, report head r = Ok (head ++ tail).
Proof.
  unfold report.
  destruct (summarize_output_default_total (stdout r)) as [o ->].
  destruct (summarize_output_default_total (stderr r)) as [e ->].
  destruct (truthy (stdout r)), (truthy (stderr r)); simpl;
    eexists; rewrite <- ?app_assoc; reflexivity.
Qed.


(** ** The plan executor *)





(** Given the empty list, the dispatch indexes its first element and
    raises [IndexError]; the state is as before. *)
Lemma dispatch_plan_empty_raises (key : Z) (b : Bot) :
  dispatch_plan key [] b = (Raise (IndexError (lit "list index out of range")), b).
Proof. reflexivity. Qed.

(** A directory change that only yields a message sends it and spawns
    nothing: a remainder after a failed change is not run. *)
Lemma run_single_message_only (key : Z) (cmd msg : str) (b b' : Bot) :
  _preprocess_command_for_cwd key cmd (is_windows detect_os) b
  = (Ok (None, Some msg), b') ->
  truthy msg = true ->
  run_single key cmd b = (Ok tt, with_log b' (log b' ++ [EvSend msg])).
Proof.
  intros Hpre Hmsg. unfold run_single, bind. rewrite Hpre. cbv beta iota.
  unfold truthy_opt. rewrite Hmsg. reflexivity.
Qed.

(** ** The mode store *)

Lemma valid_mode_cases (mode : str) :
  valid_mode mode = true <-> mode = command_mode \/ mode = chat_mode.
Proof.
  unfold valid_mode. rewrite orb_true_iff, !bool_decide_eq_true. done.
Qed.

Lemma ModeStore_get_eq (key : Z) (b : Bot) :
  ModeStore_get key b
  = (Ok (default (ms_default (mode_store b)) (ms_modes (mode_store b) !! key)), b).
Proof. reflexivity. Qed.

Lemma ModeStore_set_eq (key : Z) (mode : str) (b : Bot) :
  exists b',
    ModeStore_set key mode b
    = (Ok (if valid_mode mode then mode else ms_default (mode_store b)), b')
    /\ ms_default (mode_store b') = ms_default (mode_store b)
    /\ ms_modes (mode_store b')
       = <[key := if valid_mode mode then mode else ms_default (mode_store b)]>
           (ms_modes (mode_store b))
    /\ cwd_store b' = cwd_store b /\ log b' = log b.
Proof.
  unfold ModeStore_set, ModeStore__persist, bind, get_bot, get_state,
    set_mode_store, set_world, ret. simpl.
  destruct (negb (truthy_opt (ms_path (mode_store b)))); eexists; eauto.
Qed.

Lemma ModeStore_init_valid (w : World) (default_mode : str) (path : option str)
    (s : ModeStore) :
  ModeStore_init w default_mode path = Ok s -> modes_valid s.
Proof.
  unfold ModeStore_init.
  set (raw := if truthy_opt path then _ else _).
  set (step := fun (acc : result (gmap Z str)) (kv : str * json) => _).
  assert (Hfold : forall l acc m,
             (forall m0, acc = Ok m0 -> forall k v, m0 !! k = Some v -> valid_mode v = true) ->
             foldl step acc l = Ok m ->
             forall k v, m !! k = Some v -> valid_mode v = true).
  { induction l as [|kv l IH]; intros acc m Hacc; simpl.
    - intros ->. by eapply Hacc.
    - apply IH. intros m0 Hm0. unfold step in Hm0.
      destruct acc as [m1|]; [|done]. simpl in Hm0.
      destruct (json_str kv.2) as [v|]; [|injection Hm0 as <-; by eapply Hacc].
      destruct (valid_mode v) eqn:Hv; [|injection Hm0 as <-; by eapply Hacc].
      destruct (int_of_str kv.1) as [k|]; [|done]. injection Hm0 as <-.
      intros k' v'. rewrite lookup_insert. case_decide.
      + by intros [= <-].
      + by eapply Hacc. }
  destruct (foldl step (Ok ∅) raw) as [m|] eqn:E; [|done].
  intros [= <-]. split; simpl.
  - destruct (valid_mode default_mode) eqn:Hd; [done | reflexivity].
  - eapply Hfold; [|exact E]. intros m0 [= <-] k v. by rewrite lookup_empty.
Qed.

(** C10: [get] gives the default for a key with no entry; [set] with a
    value that is neither mode raises nothing, stores the default and
    returns it; and a store whose default and values are modes (as
    [__init__] builds it) still is one after any [set]. *)
Theorem mode_store_holds_modes_only (key : Z) (mode : str) (b : Bot) :
  (ms_modes (mode_store b) !! key = None ->
   ModeStore_get key b = (Ok (ms_default (mode_store b)), b))
  /\ (valid_mode mode = false ->
      exists b',
        ModeStore_set key mode b = (Ok (ms_default (mode_store b)), b')
        /\ ms_modes (mode_store b') !! key = Some (ms_default (mode_store b)))
  /\ (modes_valid (mode_store b) ->
      modes_valid (mode_store (ModeStore_set key mode b).2))
  /\ (forall w default_mode path s,
        ModeStore_init w default_mode path = Ok s -> modes_valid s).
Proof.
  destruct (ModeStore_set_eq key mode b) as (b' & Hset & Hdef & Hmodes & _).
  split; [|split; [|split]].
  - intros Hnone. rewrite ModeStore_get_eq. by rewrite Hnone.
  - intros Hbad. exists b'. rewrite Hbad in Hset, Hmodes. split; [done|].
    by rewrite Hmodes, lookup_insert_eq.
  - intros [Hd Hv]. rewrite Hset. simpl. split; [by rewrite Hdef|].
    rewrite Hmodes. intros k v. rewrite lookup_insert. case_decide.
    + intros [= <-]. by destruct (valid_mode mode) eqn:E.
    + apply Hv.
  - apply ModeStore_init_valid.
Qed.

End Properties.

(** ** The code on the small host *)

(** C1, the failing input: with the root [/srv/box], the sibling
    directory [/srv/boxes] is not the root nor below it, and [set] stores
    it all the same, because the root's text is a prefix of its text. *)
Theorem CwdStore_set_accepts_prefix_sibling :
  cs_base (cwd_store (toy_bot [lit "/srv/box"; lit "/srv/boxes"])) = lit "/srv/box"
  /\ ~ within (lit "/srv/box") (lit "/srv/boxes")
  /\ (CwdStore_set 7 (lit "/srv/boxes") (toy_bot [lit "/srv/box"; lit "/srv/boxes"])).1
     = Ok (lit "/srv/boxes")
  /\ current_dir
       (CwdStore_set 7 (lit "/srv/boxes") (toy_bot [lit "/srv/box"; lit "/srv/boxes"])).2 7
     = lit "/srv/boxes".
Proof.
  split; [reflexivity|]. split; [|split; vm_compute; reflexivity].
  unfold within. intros [k Hk]. vm_compute in Hk. discriminate.
Qed.

(** The same escape through the interceptor: from the root, [cd ../boxes]
    leaves the sandbox. *)
Example cd_escapes_through_prefix_sibling :
  (_preprocess_command_for_cwd 7 (lit "cd ../boxes") false
     (toy_bot [lit "/srv/box"; lit "/srv/boxes"])).1
  = Ok (None, Some (lit "Changed directory to `../boxes`")).
Proof. vm_compute. reflexivity. Qed.

(** C2 on the plan [mkdir x], [cd x], [pwd] whose first step fails: the
    planning notice, the step's command line, its invocation, its report
    and the stop notice; nothing of steps 2 and 3. *)
Example plan_mkdir_cd_pwd_log :
  dispatch_plan 7 [lit "mkdir x"; lit "cd x"; lit "pwd"] (toy_bot toy_dirs)
  = (Ok tt,
     with_log (toy_bot toy_dirs)
       [EvSend (planning_notice 3);
        EvSend (lit "[1/3] $ mkdir x");
        EvSpawn (toy_argv (lit "mkdir x")) (lit "/srv/box");
        EvSend toy_mkdir_report;
        EvSend (lit "Stopped due to error at step 1.")]).
Proof. vm_compute. reflexivity. Qed.


(** C3 on [sleep 100] with the timeout of 60 seconds. *)
Lemma run_command_timeout_witness :
  run_command (lit "sleep 100") (Some (lit "/srv/box")) (Some 60%Q) (toy_bot toy_dirs)
  = (Ok {| command := lit "sleep 100"; exit_code := 124; stdout := [];
           stderr := lit "Command timed out" |},
     {| mode_store := mode_store (toy_bot toy_dirs);
        cwd_store := cwd_store (toy_bot toy_dirs);
        world := p_killed (toy_proc toy_dirs (lit "sleep 100"));
        log := log (toy_bot toy_dirs)
               ++ [EvSpawn (wrap_command_for_shell (lit "sleep 100") detect_os)
                     (or_else (Some (lit "/srv/box")) getcwd); EvKill; EvWait] |}).
Proof.
  apply (run_command_timeout (H := toy_host) (lit "sleep 100") (Some (lit "/srv/box")) 60%Q
           (toy_proc toy_dirs (lit "sleep 100")) (toy_bot toy_dirs)).
  - reflexivity.
  - reflexivity.
Defined.

(** C6 on [cd sub && ls] from the root, with [sub] an existing
    directory: the residual command is [ls] and the session is in
    [/srv/box/sub]. *)
Lemma cd_with_argument_applies_set_witness :
  _preprocess_command_for_cwd 7 (lit "cd sub && ls") false (toy_bot toy_dirs)
  = (Ok (Some (lit "ls"), None), stored (toy_bot toy_dirs) 7 (lit "/srv/box/sub"))
  /\ current_dir (stored (toy_bot toy_dirs) 7 (lit "/srv/box/sub")) 7
     = lit "/srv/box/sub".
Proof.
  pose proof (cd_with_argument_applies_set (H := toy_host) 7 false
                (lit "cd sub && ls") (lit "cd") (lit " ")
                (lit "sub ") (DoubleAmp (lit " ls")) (toy_bot toy_dirs)) as HT.
  cbv zeta in HT.
  change (truthy (strip (strip_char squote (strip_char dquote (strip (lit "sub "))))))
    with true in HT.
  cbv iota in HT.
  rewrite (CwdStore_set_stores (H := toy_host)) in HT by reflexivity.
  destruct HT as (_ & Hdir & Hres);
    [reflexivity | reflexivity | discriminate | reflexivity | discriminate
    | reflexivity | reflexivity | reflexivity |].
  split; [exact Hres | exact Hdir].
Defined.

(** C6 as stated fails on an instruction with a second line: the dot of
    the pattern stops at a line break and the end is not reached, so
    [cd sub && ls] followed by a line break and [pwd] is not recognized,
    although [sub] exists: the whole text comes back as the residual
    command and the session stays in the root. *)
Lemma cd_before_second_line_not_recognized :
  _preprocess_command_for_cwd 7 (lit "cd sub && ls" ++ nl :: lit "pwd") false
    (toy_bot toy_dirs)
  = (Ok (Some (lit "cd sub && ls" ++ nl :: lit "pwd"), None), toy_bot toy_dirs)
  /\ current_dir (toy_bot toy_dirs) 7 = lit "/srv/box"
  /\ isdir toy_dirs (lit "/srv/box/sub") = true
  /\ lit "cd sub && ls" ++ nl :: lit "pwd" <> lit "ls".
Proof. repeat split; try (vm_compute; reflexivity). discriminate. Qed.

(** A path argument of which nothing is left once it is unquoted stands
    for the root: from [/srv/box/sub], [cd] with two double quotes goes
    to [/srv/box]. *)
Example cd_empty_quotes_goes_to_root :
  (_preprocess_command_for_cwd 7 (lit "cd " ++ [dquote; dquote]) false
     (stored (toy_bot toy_dirs) 7 (lit "/srv/box/sub"))).1
  = Ok (None, Some (lit "Changed directory to `.`")).
Proof. vm_compute. reflexivity. Qed.

(** On the windows family the token may be written in any letter case. *)
Example cd_set_location_any_case :
  (_preprocess_command_for_cwd 7 (lit "SET-location sub; dir") true
     (toy_bot toy_dirs)).1
  = Ok (Some (lit "dir"), None).
Proof. vm_compute. reflexivity. Qed.

(** The failure branch of C6: the directory does not exist, the message
    comes back, [ls] does not, and the state is as before. *)
Example cd_failure_runs_nothing :
  _preprocess_command_for_cwd 7 (lit "cd nope && ls") false (toy_bot toy_dirs)
  = (Ok (None, Some (lit "Failed to change directory: Directory does not exist")),
     toy_bot toy_dirs).
Proof. vm_compute. reflexivity. Qed.

(** C7 on the toy host, where the root exists. *)
Lemma bare_cd_resets_to_root_witness :
  _preprocess_command_for_cwd 7 (lit "cd") false
    (stored (toy_bot toy_dirs) 7 (lit "/srv/box/sub"))
  = (Ok (None, Some (lit "Changed directory to `.`")),
     stored (stored (toy_bot toy_dirs) 7 (lit "/srv/box/sub")) 7 (lit "/srv/box"))
  /\ current_dir
       (stored (stored (toy_bot toy_dirs) 7 (lit "/srv/box/sub")) 7 (lit "/srv/box")) 7
     = lit "/srv/box".
Proof.
  apply (bare_cd_resets_to_root (H := toy_host) 7 (stored (toy_bot toy_dirs) 7 (lit "/srv/box/sub")));
    reflexivity.
Defined.

(** C7 as stated fails when the root is gone: the session stays in
    [/srv/box/sub] and the message is the failure, not an
    acknowledgement. *)
Lemma bare_cd_fails_without_root :
  _preprocess_command_for_cwd 7 (lit "cd") false
    (with_world (stored (toy_bot toy_dirs) 7 (lit "/srv/box/sub")) [])
  = (Ok (None, Some (lit "Failed to change directory: Directory does not exist")),
     with_world (stored (toy_bot toy_dirs) 7 (lit "/srv/box/sub")) [])
  /\ current_dir (with_world (stored (toy_bot toy_dirs) 7 (lit "/srv/box/sub")) []) 7
     = lit "/srv/box/sub"
  /\ lit "/srv/box/sub" <> cs_base (cwd_store (toy_bot toy_dirs)).
Proof. repeat split; [vm_compute; reflexivity .. | discriminate]. Qed.

(** C8 on [ls -la]. *)
Lemma unrecognized_passes_through_witness :
  _preprocess_command_for_cwd 7 (lit "ls -la") false (toy_bot toy_dirs)
  = (Ok (Some (strip (lit "ls -la")), None), toy_bot toy_dirs).
Proof.
  apply (unrecognized_passes_through (H := toy_host) 7 (lit "ls -la") false (toy_bot toy_dirs));
    reflexivity.
Defined.

(** C8 as stated fails on an instruction with blanks around it: what
    comes back is the trimmed text, not the raw one. *)
Lemma padded_instruction_comes_back_trimmed :
  _preprocess_command_for_cwd 7 (lit "  ls -la ") false (toy_bot toy_dirs)
  = (Ok (Some (lit "ls -la"), None), toy_bot toy_dirs)
  /\ lit "ls -la" <> lit "  ls -la ".
Proof. split; [vm_compute; reflexivity | discriminate]. Qed.

(** The oracle answers with an empty array and the plan is empty. *)
Example oracle_empty_plan :
  to_commands_from_nl (lit "list the files") BASH 5 = Ok [].
Proof. vm_compute. reflexivity. Qed.

Example on_message_empty_plan_raises :
  on_message toy_chat_message toy_chat_bot
  = (Raise (IndexError (lit "list index out of range")), toy_chat_bot).
Proof. vm_compute. reflexivity. Qed.

(** C9, the failing input: on every host and in every state the dispatch
    of the empty plan raises [IndexError] and leaves the state as it was;
    and the empty plan does reach it: for the oracle's answer of an empty
    JSON array [to_commands_from_nl] returns the empty list, and
    [on_message], in chat mode, raises on it. *)
Theorem empty_plan_is_indexed :
  (forall (H : Host) (key : Z) (b : Bot),
     dispatch_plan key [] b
     = (Raise (IndexError (lit "list index out of range")), b))
  /\ to_commands_from_nl (lit "list the files") BASH 5 = Ok []
  /\ on_message toy_chat_message toy_chat_bot
     = (Raise (IndexError (lit "list index out of range")), toy_chat_bot).
Proof.
  split; [|split].
  - intros H key b. apply dispatch_plan_empty_raises.
  - apply oracle_empty_plan.
  - apply on_message_empty_plan_raises.
Qed.

(** C10 on the toy host: an unset key, and the value [loud]. *)
Lemma mode_store_holds_modes_only_witness :
  ModeStore_get 7 (toy_bot toy_dirs) = (Ok (lit "command"), toy_bot toy_dirs)
  /\ (exists b',
        ModeStore_set 7 (lit "loud") (toy_bot toy_dirs) = (Ok (lit "command"), b')
        /\ ms_modes (mode_store b') !! 7 = Some (lit "command"))
  /\ modes_valid (mode_store (ModeStore_set 7 (lit "loud") toy_chat_bot).2).
Proof.
  destruct (mode_store_holds_modes_only (H := toy_host) 7 (lit "loud") (toy_bot toy_dirs))
    as (Hget & Hset & _ & _).
  destruct (mode_store_holds_modes_only (H := toy_host) 7 chat_mode (toy_bot toy_dirs))
    as (_ & _ & Hchat & _).
  destruct (mode_store_holds_modes_only (H := toy_host) 7 (lit "loud") toy_chat_bot)
    as (_ & _ & Hinv & _).
  split; [by apply Hget|]. split; [by apply Hset|].
  apply Hinv, Hchat. split; [reflexivity|].
  intros k v. simpl. by rewrite lookup_empty.
Defined.

(** The toy bot's mode store is what [ModeStore.__init__] builds when no
    snapshot can be read. *)
Example toy_mode_store_init :
  ModeStore_init toy_dirs DEFAULT_MODE (Some MODE_STORE_PATH)
  = Ok (mode_store (toy_bot toy_dirs)).
Proof. reflexivity. Qed.

(** In command mode a failed change followed by [ls] sends the failure
    and starts no process. *)
Example on_message_failed_cd_runs_nothing :
  on_message {| author_bot := false; author_id := 1; guild_id := None;
                channel_id := 7; channel_parent := None;
                content := lit "cd nope && ls" |} (toy_bot toy_dirs)
  = (Ok tt,
     with_log (toy_bot toy_dirs)
       [EvSend (lit "Failed to change directory: Directory does not exist")]).
Proof. vm_compute. reflexivity. Qed.

(** ** Keys of a snapshot *)

Lemma is_digit_not_space (c : ascii) : is_digit c = true -> isspace c = false.
Proof. destruct c as [[] [] [] [] [] [] [] []]; vm_compute; congruence. Qed.

Lemma is_digit_not_sign (c : ascii) :
  is_digit c = true -> ascii_eqb c "-"%char = false /\ ascii_eqb c "+"%char = false.
Proof. destruct c as [[] [] [] [] [] [] [] []]; vm_compute; intuition congruence. Qed.

Lemma digits_fuel_digits (fuel : nat) : forall (n : Z) (acc : str),
  Forall (fun c => is_digit c = true) acc ->
  Forall (fun c => is_digit c = true) (digits_fuel fuel n acc).
Proof.
  induction fuel as [|fuel IH]; intros n acc Hacc; [done|].
  cbn [digits_fuel].
  assert (is_digit (digit (n mod 10)) = true) as Hd.
  { apply digit_value. apply Z.mod_pos_bound. lia. }
  destruct (n <? 10); [by constructor|]. apply IH. by constructor.
Qed.

Lemma digits_fuel_nonempty (fuel : nat) (n : Z) (acc : str) :
  digits_fuel (S fuel) n acc <> [].
Proof.
  revert n acc. induction fuel as [|fuel IH]; intros n acc; cbn [digits_fuel].
  - by destruct (n <? 10).
  - destruct (n <? 10); [done|]. apply IH.
Qed.

Lemma lstrip_by_head (p : ascii -> bool) (c : ascii) (x : str) :
  p c = false -> lstrip_by p (c :: x) = c :: x.
Proof. intros Hc. simpl. by rewrite Hc. Qed.

Lemma strip_no_space (x : str) :
  Forall (fun c => isspace c = false) x -> strip x = x.
Proof.
  intros Hx. unfold strip, strip_by, rstrip_by.
  assert (Hl : forall y, Forall (fun c => isspace c = false) y ->
                         lstrip_by isspace y = y).
  { intros [|c y] Hy; [done|]. inversion Hy; subst. by apply lstrip_by_head. }
  rewrite (Hl x Hx).
  assert (Forall (fun c => isspace c = false) (rev x)) as Hr.
  { apply Forall_forall. intros c Hc.
    apply list_elem_of_In, in_rev, list_elem_of_In in Hc.
    revert c Hc. by apply Forall_forall. }
  rewrite (Hl (rev x) Hr). apply rev_involutive.
Qed.

Lemma unsigned_val_digits (x : str) (n : Z) :
  x <> [] -> Forall (fun c => is_digit c = true) x ->
  digits_val 0 x = Some n -> unsigned_val x = Some n.
Proof.
  intros Hne Hx Hv. destruct x as [|c x]; [done|].
  inversion Hx as [|? ? Hc _]; subst. unfold unsigned_val. by rewrite Hc.
Qed.

Lemma str_of_nonneg_digits (n : Z) :
  str_of_nonneg n <> [] /\ Forall (fun c => is_digit c = true) (str_of_nonneg n).
Proof.
  split; [apply digits_fuel_nonempty | by apply digits_fuel_digits].
Qed.

(** [int(str(n))] is [n]: the key a store writes is the key it reads
    back. *)
Lemma int_of_str_of_int (n : Z) : int_of_str (str_of_int n) = Some n.
Proof.
  unfold str_of_int. destruct (Z.ltb_spec n 0) as [Hneg|Hpos].
  - destruct (str_of_nonneg_digits (- n)) as [Hne Hd].
    unfold int_of_str. rewrite strip_no_space.
    + rewrite ascii_eqb_refl.
      rewrite (unsigned_val_digits _ (- n) Hne Hd) by (apply str_of_nonneg_value; lia).
      simpl. f_equal. lia.
    + constructor; [done|]. eapply Forall_impl; [exact Hd|].
      apply is_digit_not_space.
  - destruct (str_of_nonneg_digits n) as [Hne Hd].
    unfold int_of_str. rewrite strip_no_space
      by (eapply Forall_impl; [exact Hd | apply is_digit_not_space]).
    destruct (str_of_nonneg n) as [|c x] eqn:E; [done|].
    inversion Hd as [|? ? Hc Hx]; subst.
    destruct (is_digit_not_sign c Hc) as [-> ->].
    apply unsigned_val_digits; [done | done |].
    rewrite <- E. by apply str_of_nonneg_value.
Qed.

Lemma foldl_insert_filter (P : Z * str -> bool) (l : list (Z * str))
    (acc : gmap Z str) :
  NoDup l.*1 ->
  foldl (fun m kv => if P kv then <[kv.1 := kv.2]> m else m) acc l
  = list_to_map (filter (fun kv => P kv = true) l) ∪ acc.
Proof.
  revert acc. induction l as [|[k v] l IH]; intros acc Hnd; simpl.
  - by rewrite (left_id_L ∅ (∪)).
  - inversion Hnd as [|? ? Hk Hl]; subst. rewrite IH by done.
    assert (Hnone : (list_to_map (filter (fun kv => P kv = true) l) : gmap Z str) !! k = None).
    { apply not_elem_of_list_to_map_1. intros Hin. apply Hk.
      apply list_elem_of_fmap in Hin as ([k' v'] & -> & Hin).
      apply list_elem_of_filter in Hin as [_ Hin].
      apply list_elem_of_fmap. by exists (k', v'). }
    rewrite filter_cons. destruct (P (k, v)) eqn:E.
    + rewrite decide_True by done. simpl.
      rewrite <- insert_union_l. by rewrite insert_union_r.
    + rewrite decide_False by congruence. done.
Qed.

Section Stores.

Context {H : Host}.

(** ** The directory store *)

(** X1: a successful [set] returns the resolved path, which has the root as
    a prefix and is a directory; [get] for the key then returns it, every
    other key reads as before, and nothing else of the state changes but
    the persisted snapshot. *)
Theorem CwdStore_set_then_get (key : Z) (new_dir d : str) (b b' : Bot) :
  CwdStore_set key new_dir b = (Ok d, b') ->
  d = abspath getcwd new_dir
  /\ startswith d (cs_base (cwd_store b)) = true
  /\ isdir (world b) d = true
  /\ CwdStore_get key b' = (Ok d, b')
  /\ (forall k, k <> key -> current_dir b' k = current_dir b k)
  /\ cs_base (cwd_store b') = cs_base (cwd_store b)
  /\ mode_store b' = mode_store b
  /\ log b' = log b.
Proof.
  rewrite CwdStore_set_eq. cbv zeta.
  destruct (startswith _ _) eqn:Hin; [|discriminate]. simpl.
  destruct (isdir _ _) eqn:Hdir; [|discriminate]. simpl.
  intros [= <- <-]. repeat split; try done.
  - rewrite CwdStore_get_eq. by rewrite current_dir_stored.
  - intros k Hk. by apply current_dir_stored_ne.
Qed.

Lemma cwd_prefixed_insert (s : CwdStore) (key : Z) (d : str) :
  cwd_prefixed s -> normal_abs d -> startswith d (cs_base s) = true ->
  cwd_prefixed {| cs_base := cs_base s; cs_path := cs_path s;
                  cs_cwd := <[key := d]> (cs_cwd s) |}.
Proof.
  intros Hs Hd Hin k v. simpl. rewrite lookup_insert. case_decide.
  - by intros [= <-].
  - apply Hs.
Qed.

Lemma CwdStore_init_step_prefixed (w : World) (base : str)
    (l : list (str * json)) (m : gmap Z str) :
  (forall k v, m !! k = Some v -> normal_abs v /\ startswith v base = true) ->
  forall k v,
    foldl (fun (m : gmap Z str) kv =>
             match int_of_str kv.1, json_str kv.2 with
             | Some cid, Some v =>
                 let abs_v := abspath getcwd v in
                 if startswith abs_v base && isdir w abs_v
                 then <[cid := abs_v]> m else m
             | _, _ => m
             end) m l !! k = Some v ->
    normal_abs v /\ startswith v base = true /\ (m !! k = Some v \/ isdir w v = true).
Proof.
  revert m. induction l as [|kv l IH]; intros m Hm k v; simpl.
  - intros Hk. destruct (Hm k v Hk). auto.
  - intros Hk. apply IH in Hk.
    + destruct Hk as (Hn & Hp & [Hk | Hd]); [|auto].
      destruct (int_of_str kv.1) as [cid|]; [|auto].
      destruct (json_str kv.2) as [v0|]; [|auto]. cbv zeta in Hk.
      destruct (startswith _ _ && isdir _ _) eqn:E; [|auto].
      apply andb_true_iff in E as [_ E].
      rewrite lookup_insert in Hk. case_decide; [|auto].
      injection Hk as <-. auto.
    + intros k0 v0.
      destruct (int_of_str kv.1) as [cid|]; [|apply Hm].
      destruct (json_str kv.2) as [v1|]; [|apply Hm]. cbv zeta.
      destruct (startswith _ _ && isdir _ _) eqn:E; [|apply Hm].
      apply andb_true_iff in E as [E _].
      rewrite lookup_insert. case_decide; [|apply Hm].
      intros [= <-]. split; [|done]. apply abspath_normal, getcwd_absolute.
Qed.

(** X2: what [__init__] keeps of a snapshot: normalized paths below the root
    (as texts) that are directories when it loads; and the root it takes
    is normalized. *)
Theorem CwdStore_init_reconciles (w : World) (base_dir : str) (path : option str) :
  cs_base (CwdStore_init w base_dir path) = abspath getcwd base_dir
  /\ normal_abs (cs_base (CwdStore_init w base_dir path))
  /\ cwd_prefixed (CwdStore_init w base_dir path)
  /\ forall k v, cs_cwd (CwdStore_init w base_dir path) !! k = Some v ->
                 isdir w v = true.
Proof.
  split; [reflexivity|]. split; [apply abspath_normal, getcwd_absolute|].
  split.
  - intros k v Hk. unfold CwdStore_init in Hk. simpl in Hk.
    apply CwdStore_init_step_prefixed in Hk.
    + by destruct Hk as (? & ? & _).
    + intros k0 v0. by rewrite lookup_empty.
  - intros k v Hk. unfold CwdStore_init in Hk. simpl in Hk.
    apply CwdStore_init_step_prefixed in Hk.
    + destruct Hk as (_ & _ & [Hk | Hd]); [|done]. by rewrite lookup_empty in Hk.
    + intros k0 v0. by rewrite lookup_empty.
Qed.

(** X3: the invariant of the store: [set], whether it succeeds or raises,
    keeps every stored directory a normalized path with the root's text
    as a prefix, so what [get] then returns for any key has the root's
    text as a prefix. *)
Theorem CwdStore_set_keeps_prefixed (key : Z) (new_dir : str) (b : Bot) :
  cwd_prefixed (cwd_store b) ->
  cwd_prefixed (cwd_store (CwdStore_set key new_dir b).2)
  /\ forall k, startswith (current_dir (CwdStore_set key new_dir b).2 k)
                 (cs_base (cwd_store b)) = true.
Proof.
  intros Hs.
  assert (Hget : forall b0, cwd_prefixed (cwd_store b0) ->
            forall k, startswith (current_dir b0 k) (cs_base (cwd_store b0)) = true).
  { intros b0 H0 k. unfold current_dir.
    destruct (cs_cwd (cwd_store b0) !! k) as [v|] eqn:E; simpl.
    - by apply H0 in E as [_ ?].
    - apply startswith_refl. }
  rewrite CwdStore_set_eq. cbv zeta.
  destruct (startswith _ _) eqn:Hin; simpl; [|by auto].
  destruct (isdir _ _) eqn:Hdir; simpl; [|by auto].
  assert (cwd_prefixed (cwd_store (stored b key (abspath getcwd new_dir)))) as Hs'.
  { unfold stored. simpl. apply cwd_prefixed_insert; [done | | done].
    apply abspath_normal, getcwd_absolute. }
  split; [done|]. intros k. apply (Hget _ Hs').
Qed.

Lemma jsonify_snapshot (m : gmap Z str) :
  jsonify (snapshot m)
  = (fun kv => (str_of_int kv.1, JStr kv.2)) <$> map_to_list m.
Proof. unfold jsonify, snapshot. by rewrite <- list_fmap_compose. Qed.

Lemma CwdStore_init_fold_snapshot (w : World) (base : str)
    (l : list (Z * str)) (acc : gmap Z str) :
  Forall (fun kv => normal_abs kv.2 /\ startswith kv.2 base = true) l ->
  foldl (fun (m : gmap Z str) (kv : str * json) =>
           match int_of_str kv.1, json_str kv.2 with
           | Some cid, Some v =>
               let abs_v := abspath getcwd v in
               if startswith abs_v base && isdir w abs_v
               then <[cid := abs_v]> m else m
           | _, _ => m
           end) acc ((fun kv => (str_of_int kv.1, JStr kv.2)) <$> l)
  = foldl (fun m kv => if isdir w kv.2 then <[kv.1 := kv.2]> m else m) acc l.
Proof.
  intros Hl. revert acc. induction Hl as [|[k v] l [Hn Hp] _ IH]; intros acc; [done|].
  simpl in *. rewrite int_of_str_of_int.
  rewrite (abspath_of_normal getcwd v Hn), Hp. simpl. apply IH.
Qed.

(** X4: loading the snapshot of a store's map back: the entries whose
    directory still exists come back as they were, the others are
    dropped. *)
Theorem CwdStore_init_reloads (w : World) (base_dir path : str) (m : gmap Z str) :
  truthy path = true ->
  read_json w path = Some (jsonify (snapshot m)) ->
  (forall k v, m !! k = Some v ->
     normal_abs v /\ startswith v (abspath getcwd base_dir) = true) ->
  cs_cwd (CwdStore_init w base_dir (Some path))
  = filter (fun kv => isdir w kv.2 = true) m.
Proof.
  intros Hpath Hread Hm. unfold CwdStore_init. simpl. rewrite Hpath.
  unfold load_json. rewrite Hread, jsonify_snapshot.
  rewrite CwdStore_init_fold_snapshot.
  - rewrite (foldl_insert_filter (fun kv => isdir w kv.2))
      by apply NoDup_fst_map_to_list.
    rewrite (right_id_L ∅ (∪)). symmetry. apply map_filter_alt.
  - apply Forall_forall. intros [k v] Hin. apply elem_of_map_to_list in Hin.
    apply (Hm k v Hin).
Qed.

(** ** The mode store *)

(** X5: [set] with a mode stores it: [get] for the key returns it, every
    other key reads as before, and the directory store and the log are
    untouched. *)
Theorem ModeStore_set_then_get (key : Z) (mode : str) (b : Bot) :
  valid_mode mode = true ->
  exists b',
    ModeStore_set key mode b = (Ok mode, b')
    /\ ModeStore_get key b' = (Ok mode, b')
    /\ (forall k, k <> key ->
          (ModeStore_get k b').1 = (ModeStore_get k b).1)
    /\ cwd_store b' = cwd_store b /\ log b' = log b.
Proof.
  intros Hv.
  destruct (ModeStore_set_eq key mode b) as (b' & Hset & Hdef & Hmodes & Hcwd & Hlog).
  rewrite Hv in Hset, Hmodes. exists b'. split; [done|].
  rewrite !ModeStore_get_eq. split; [|split; [|done]].
  - by rewrite Hmodes, lookup_insert_eq.
  - intros k Hk. simpl. by rewrite Hmodes, Hdef, lookup_insert_ne.
Qed.

Lemma ModeStore_init_fold_raise (l : list (str * json)) (e : exn) :
  foldl (fun (acc : result (gmap Z str)) (kv : str * json) =>
           rbind acc (fun m =>
             match json_str kv.2 with
             | Some v =>
                 if valid_mode v then
                   match int_of_str kv.1 with
                   | Some k => Ok (<[k := v]> m)
                   | None => Raise (ValueError (lit "invalid literal for int()"))
                   end
                 else Ok m
             | None => Ok m
             end)) (Raise e) l = Raise e.
Proof. induction l as [|kv l IH]; [done|]. simpl. apply IH. Qed.

Lemma ModeStore_init_fold_bad_key (l : list (str * json)) (k v : str)
    (acc : result (gmap Z str)) :
  (k, JStr v) ∈ l -> valid_mode v = true -> int_of_str k = None ->
  (forall e, acc = Raise e -> e = ValueError (lit "invalid literal for int()")) ->
  foldl (fun (acc : result (gmap Z str)) (kv : str * json) =>
           rbind acc (fun m =>
             match json_str kv.2 with
             | Some v =>
                 if valid_mode v then
                   match int_of_str kv.1 with
                   | Some k => Ok (<[k := v]> m)
                   | None => Raise (ValueError (lit "invalid literal for int()"))
                   end
                 else Ok m
             | None => Ok m
             end)) acc l
  = Raise (ValueError (lit "invalid literal for int()")).
Proof.
  intros Hin Hv Hk. revert acc.
  induction l as [|kv l IH]; intros acc Hacc; [by apply elem_of_nil in Hin|].
  simpl. apply elem_of_cons in Hin as [<- | Hin].
  - simpl. rewrite Hv, Hk. destruct acc as [m|e]; simpl.
    + apply ModeStore_init_fold_raise.
    + rewrite (Hacc e eq_refl). apply ModeStore_init_fold_raise.
  - apply IH; [done|]. intros e. destruct acc as [m|e0]; simpl.
    + destruct (json_str kv.2) as [v0|]; [|done].
      destruct (valid_mode v0); [|done].
      destruct (int_of_str kv.1); [done|]. by intros [= <-].
    + intros [= <-]. by apply Hacc.
Qed.

(** X6: unlike the directory store, [ModeStore.__init__] does not skip a key
    that is not an integer: when the snapshot holds one with a mode as
    its value, the constructor raises [ValueError]. *)
Theorem ModeStore_init_bad_key (w : World) (default_mode path : str)
    (raw : list (str * json)) (k v : str) :
  truthy path = true ->
  read_json w path = Some raw ->
  (k, JStr v) ∈ raw -> valid_mode v = true -> int_of_str k = None ->
  ModeStore_init w default_mode (Some path)
  = Raise (ValueError (lit "invalid literal for int()")).
Proof.
  intros Hpath Hread Hin Hv Hk. unfold ModeStore_init. simpl. rewrite Hpath.
  unfold load_json. rewrite Hread.
  rewrite (ModeStore_init_fold_bad_key raw k v); done.
Qed.

Lemma filter_all_true {A} (l : list A) : filter (fun _ => true = true) l = l.
Proof.
  induction l as [|x l IH]; [done|]. rewrite filter_cons, decide_True by done.
  by rewrite IH.
Qed.

Lemma ModeStore_init_fold_snapshot (l : list (Z * str)) (acc : gmap Z str) :
  Forall (fun kv => valid_mode kv.2 = true) l ->
  foldl (fun (acc : result (gmap Z str)) (kv : str * json) =>
           rbind acc (fun m =>
             match json_str kv.2 with
             | Some v =>
                 if valid_mode v then
                   match int_of_str kv.1 with
                   | Some k => Ok (<[k := v]> m)
                   | None => Raise (ValueError (lit "invalid literal for int()"))
                   end
                 else Ok m
             | None => Ok m
             end)) (Ok acc) ((fun kv => (str_of_int kv.1, JStr kv.2)) <$> l)
  = Ok (foldl (fun m kv => if (fun _ : Z * str => true) kv
                           then <[kv.1 := kv.2]> m else m) acc l).
Proof.
  intros Hl. revert acc. induction Hl as [|[k v] l Hv _ IH]; intros acc; [done|].
  simpl in *. rewrite Hv, int_of_str_of_int. apply IH.
Qed.

(** X7: loading the snapshot of a mode store back gives the same modes; the
    default is the configured one when that is a mode, [command]
    otherwise. *)
Theorem ModeStore_init_reloads (w : World) (default_mode path : str)
    (m : gmap Z str) :
  truthy path = true ->
  read_json w path = Some (jsonify (snapshot m)) ->
  (forall k v, m !! k = Some v -> valid_mode v = true) ->
  ModeStore_init w default_mode (Some path)
  = Ok {| ms_path := Some path;
          ms_default := if valid_mode default_mode then default_mode
                        else command_mode;
          ms_modes := m |}.
Proof.
  intros Hpath Hread Hm. unfold ModeStore_init. simpl. rewrite Hpath.
  unfold load_json. rewrite Hread, jsonify_snapshot.
  rewrite ModeStore_init_fold_snapshot.
  - rewrite (foldl_insert_filter (fun _ => true)) by apply NoDup_fst_map_to_list.
    rewrite filter_all_true, (right_id_L ∅ (∪)), list_to_map_to_list. done.
  - apply Forall_forall. intros [k v] Hin. apply elem_of_map_to_list in Hin.
    apply (Hm k v Hin).
Qed.

End Stores.

(** ** What a match tells about the text *)

Lemma star_inv (cls : ascii -> bool) (k : re.cont) (x : str) c r :
  re.star cls k x c = Some r ->
  exists pre rest, x = pre ++ rest /\ forallb cls pre = true /\ k rest c = Some r.
Proof.
  induction x as [|a x IH]; simpl.
  - intros Hk. by exists [], [].
  - destruct (cls a) eqn:Ha; [|intros Hk; by exists [], (a :: x)].
    destruct (re.star cls k x c) as [r0|] eqn:E.
    + intros [= <-]. destruct (IH eq_refl) as (pre & rest & -> & Hpre & Hk).
      exists (a :: pre), rest. simpl. by rewrite Ha, Hpre.
    + intros Hk. by exists [], (a :: x).
Qed.

Lemma plus_inv (cls : ascii -> bool) (k : re.cont) (x : str) c r :
  re.plus cls k x c = Some r ->
  exists pre rest, x = pre ++ rest /\ pre <> [] /\ forallb cls pre = true
                   /\ k rest c = Some r.
Proof.
  unfold re.plus. destruct x as [|a x]; [done|].
  destruct (cls a) eqn:Ha; [|done]. intros Hs.
  apply star_inv in Hs as (pre & rest & -> & Hpre & Hk).
  exists (a :: pre), rest. simpl. by rewrite Ha, Hpre.
Qed.

Lemma strip_literal_inv (p x r : str) :
  re.strip_literal false p x = Some r -> x = p ++ r.
Proof.
  revert x. induction p as [|a p IH]; intros x; simpl; [by intros [= ->]|].
  destruct x as [|b x]; [done|]. unfold re.ch_eqb.
  destruct (ascii_eqb a b) eqn:E; [|done]. apply ascii_eqb_eq in E as ->.
  intros Hr. by rewrite (IH _ Hr).
Qed.

Lemma literal_inv (p x : str) (k : re.cont) c r :
  re.literal false p k x c = Some r -> exists rest, x = p ++ rest /\ k rest c = Some r.
Proof.
  unfold re.literal. destruct (re.strip_literal false p x) as [rest|] eqn:E; [|done].
  intros Hk. exists rest. split; [by apply strip_literal_inv | done].
Qed.

Lemma alt_inv (a b : re.matcher) (k : re.cont) (x : str) c r :
  re.alt a b k x c = Some r -> a k x c = Some r \/ b k x c = Some r.
Proof. unfold re.alt. destruct (a k x c); [intros [= <-]; auto | auto]. Qed.

Lemma at_end_space (x : str) : re.at_end x = true -> forallb isspace x = true.
Proof.
  destruct x as [|a [|b x]]; [done | | done]. simpl.
  intros Ha. apply ascii_eqb_eq in Ha as ->. reflexivity.
Qed.

(** The end of the bare form: only blanks are left. *)
Lemma blanks_to_end_inv (x : str) c r :
  re.star isspace (re.eol (fun _ c => Some c)) x c = Some r ->
  forallb isspace x = true /\ r = c.
Proof.
  intros Hs. apply star_inv in Hs as (pre & rest & -> & Hpre & Hk).
  unfold re.eol in Hk. destruct (re.at_end rest) eqn:E; [|done].
  injection Hk as <-. split; [|done].
  rewrite forallb_app, Hpre. by rewrite (at_end_space _ E).
Qed.

Lemma blanks_to_end (ws : str) c :
  forallb isspace ws = true ->
  re.star isspace (re.eol (fun _ c => Some c)) ws c = Some c.
Proof.
  intros Hws. rewrite <- (app_nil_r ws). by apply star_greedy.
Qed.

Lemma strip_literal_other (p q x : str) :
  re.strip_literal false p (q ++ x) = None ->
  forall c (k : re.cont), re.literal false p k (q ++ x) c = None.
Proof. intros Hn c k. unfold re.literal. by rewrite Hn. Qed.

(** X8: the bare form on the unix family: the text is [cd] or [Set-Location],
    exactly so written, followed by blanks only. *)
Theorem bare_cd_pattern_unix_iff (text : str) :
  is_Some (re.match_ (bare_cd_pattern false) text)
  <-> exists ws, forallb isspace ws = true
                 /\ (text = lit "cd" ++ ws \/ text = lit "Set-Location" ++ ws).
Proof.
  unfold re.match_, bare_cd_pattern, cd_token, re.seq. split.
  - intros [r Hr]. apply alt_inv in Hr as [Hr | Hr];
      apply literal_inv in Hr as (rest & -> & Hk);
      apply blanks_to_end_inv in Hk as [Hws _]; exists rest; auto.
  - intros (ws & Hws & [-> | ->]).
    + unfold re.alt.
      change (re.literal false (lit "Set-Location") ?k (lit "cd" ++ ws) ?c)
        with (@None re.caps).
      rewrite literal_app. rewrite blanks_to_end by done. by eexists.
    + unfold re.alt. rewrite literal_app. rewrite blanks_to_end by done.
      by eexists.
Qed.

(** X9: the directory-change pattern of the unix family never captures an
    empty path argument nor one with [;] or [&] in it, and its second
    group is always set and holds no line break: after [cd] come blanks,
    the argument, what separates, the remainder. *)
Theorem cd_pattern_unix_sound (text : str) (o1 o2 : option str) :
  re.match_ cd_pattern_unix text = Some (o1, o2) ->
  exists ws g1 mid g2 tl,
    text = lit "cd" ++ ws ++ g1 ++ mid ++ g2 ++ tl
    /\ ws <> [] /\ forallb isspace ws = true
    /\ o1 = Some g1 /\ g1 <> [] /\ forallb re.not_sep g1 = true
    /\ o2 = Some g2 /\ forallb re.any_but_newline g2 = true
    /\ re.at_end tl = true
    /\ exists b1 b2, forallb isspace b1 = true /\ forallb isspace b2 = true
         /\ (mid = b1 ++ lit ";" \/ mid = b1 ++ lit "&&" ++ b2
             \/ (mid = b1 /\ forallb isspace (g2 ++ tl) = true)).
Proof.
  unfold re.match_, cd_pattern_unix, re.seq at 1. intros Hm.
  apply literal_inv in Hm as (x0 & -> & Hm).
  unfold cd_tail, re.seq at 1 in Hm.
  apply plus_inv in Hm as (ws & x1 & -> & Hws1 & Hws2 & Hm).
  unfold re.seq at 1, re.group at 1 in Hm.
  apply plus_inv in Hm as (g1 & x2 & -> & Hg1 & Hg2 & Hm).
  rewrite take_consumed in Hm. cbn [re.set_group fst snd] in Hm.
  assert (Hrest : forall x c r,
    re.group 2 (re.star re.any_but_newline) (re.eol (fun _ c => Some c)) x c = Some r ->
    exists g2 tl, x = g2 ++ tl /\ forallb re.any_but_newline g2 = true
                  /\ re.at_end tl = true /\ r = (fst c, Some g2)).
  { intros x c r Hr. unfold re.group in Hr.
    apply star_inv in Hr as (g2 & tl & -> & Hg & Hk).
    unfold re.eol in Hk. destruct (re.at_end tl) eqn:E; [|done].
    rewrite take_consumed in Hk. injection Hk as <-. by exists g2, tl. }
  unfold re.seq at 1 in Hm.
  apply alt_inv in Hm as [Hm | Hm]; [|apply alt_inv in Hm as [Hm | Hm]].
  - unfold re.seq at 1 in Hm. apply star_inv in Hm as (b1 & x3 & -> & Hb1 & Hm).
    apply literal_inv in Hm as (x4 & -> & Hm). unfold re.seq in Hm.
    apply Hrest in Hm as (g2 & tl & -> & Hg & Htl & [= -> ->]).
    exists ws, g1, (b1 ++ lit ";"), g2, tl.
    rewrite <- !app_assoc. repeat split; try done.
    exists b1, []. auto.
  - unfold re.seq at 1 in Hm. apply star_inv in Hm as (b1 & x3 & -> & Hb1 & Hm).
    unfold re.seq at 1 in Hm.
    apply literal_inv in Hm as (x4 & -> & Hm).
    apply star_inv in Hm as (b2 & x5 & -> & Hb2 & Hm). unfold re.seq in Hm.
    apply Hrest in Hm as (g2 & tl & -> & Hg & Htl & [= -> ->]).
    exists ws, g1, (b1 ++ lit "&&" ++ b2), g2, tl.
    rewrite <- !app_assoc. repeat split; try done.
    exists b1, b2. auto.
  - unfold re.seq at 1 in Hm. apply star_inv in Hm as (b1 & x3 & -> & Hb1 & Hm).
    unfold re.eol at 1 in Hm. destruct (re.at_end x3) eqn:E3; [|done].
    unfold re.seq in Hm.
    apply Hrest in Hm as (g2 & tl & -> & Hg & Htl & [= -> ->]).
    exists ws, g1, b1, g2, tl. repeat split; try done.
    exists b1, []. repeat split; try done. right. right. split; [done|].
    by apply at_end_space.
Qed.

Section Engine2.

Context {H : Host}.

(** ** Resolving the target of a directory change *)

Lemma join_absolute (a b : str) : isabs b = true -> join a b = b.
Proof. unfold isabs, join. by intros ->. Qed.

(** X10: [_resolve_cd_target] reads and never writes; what it returns is a
    normalized absolute path: the root for an absent or blank argument,
    and for an absolute argument the argument itself, normalized,
    wherever the session is. *)
Theorem resolve_cd_target_result (key : Z) (arg : option str) (b : Bot) :
  exists p,
    _resolve_cd_target key arg b = (Ok p, b)
    /\ normal_abs p
    /\ (truthy (strip (default [] arg)) = false -> p = abspath getcwd WORK_DIR)
    /\ (truthy (strip (default [] arg)) = true ->
        p = abspath getcwd (join (current_dir b key) (strip (default [] arg))))
    /\ (isabs (strip (default [] arg)) = true ->
        p = abspath getcwd (strip (default [] arg))).
Proof.
  unfold _resolve_cd_target.
  destruct arg as [a|]; simpl.
  - destruct (truthy (strip a)) eqn:Hs.
    + rewrite (truthy_strip _ Hs). simpl. eexists. split; [reflexivity|].
      split; [apply abspath_normal, getcwd_absolute|].
      split; [done|]. split; [done|]. intros Ha. by rewrite join_absolute.
    + rewrite orb_true_r. eexists. split; [reflexivity|].
      split; [apply abspath_normal, getcwd_absolute|].
      split; [done|]. split; [done|]. intros Ha.
      destruct (strip a); [done|discriminate].
  - eexists. split; [reflexivity|].
    split; [apply abspath_normal, getcwd_absolute|]. by repeat split.
Qed.

(** ** The interceptor, whatever the instruction *)

Lemma changed_message_truthy (newd msg : str) :
  changed_message newd = Ok msg -> truthy msg = true.
Proof.
  unfold changed_message. destruct (relpath _ _ _); [|done]. by intros [= <-].
Qed.

Lemma _preprocess_command_for_cwd_cases (key : Z) (cmd : str)
    (is_windows : bool) (b : Bot) :
  exists r b',
    _preprocess_command_for_cwd key cmd is_windows b = (Ok r, b')
    /\ (b' = b \/ exists d, b' = stored b key d /\ normal_abs d
                            /\ startswith d (cs_base (cwd_store b)) = true
                            /\ isdir (world b) d = true)
    /\ match r with
       | (Some _, Some _) => False
       | (Some residual, None) => truthy residual = true
       | (None, Some msg) => truthy msg = true
       | (None, None) => truthy (strip cmd) = false /\ b' = b
       end.
Proof.
  assert (Hset : forall p (rem : str),
    exists r b',
      try_except
        (newd <- CwdStore_set key p ;;
         if truthy rem then ret (Some rem, None)
         else msg <- lift (changed_message newd) ;; ret (None, Some msg))
        (fun e => ret (None, Some (failed_message e))) b = (Ok r, b')
      /\ (b' = b \/ exists d, b' = stored b key d /\ normal_abs d
                              /\ startswith d (cs_base (cwd_store b)) = true
                              /\ isdir (world b) d = true)
      /\ match r with
         | (Some _, Some _) => False
         | (Some residual, None) => truthy residual = true
         | (None, Some msg) => truthy msg = true
         | (None, None) => False
         end).
  { intros p rem. unfold try_except, bind. rewrite CwdStore_set_eq. cbv zeta.
    destruct (startswith _ _) eqn:Hin; simpl;
      [|eexists _, _; split; [reflexivity|]; split; [by left | done]].
    destruct (isdir _ _) eqn:Hdir; simpl;
      [|eexists _, _; split; [reflexivity|]; split; [by left | done]].
    assert (Hst : exists d, stored b key (abspath getcwd p) = stored b key d
                            /\ normal_abs d
                            /\ startswith d (cs_base (cwd_store b)) = true
                            /\ isdir (world b) d = true).
    { eexists. split; [reflexivity|].
      split; [apply abspath_normal, getcwd_absolute | done]. }
    destruct (truthy rem) eqn:Hrem.
    - eexists _, _. split; [reflexivity|]. split; [by right | done].
    - destruct (changed_message_total getcwd p) as [msg Hmsg].
      unfold lift, ret. rewrite Hmsg.
      eexists _, _. split; [reflexivity|]. split; [by right|].
      by eapply changed_message_truthy. }
  unfold _preprocess_command_for_cwd.
  destruct (truthy (strip cmd)) eqn:Hne; simpl;
    [|eexists _, _; split; [reflexivity|]; split; [by left | done]].
  destruct (re.match_ _ (strip cmd)) as [[g1 g2]|].
  - unfold bind at 1.
    destruct (_resolve_cd_target_reads key
                (Some (strip_char squote (strip_char dquote (strip (default [] g1))))) b)
      as [p ->].
    destruct (Hset p (strip (default [] g2))) as (r & b' & Hr & Hb & Hshape).
    exists r, b'. split; [exact Hr|]. split; [done|].
    by destruct r as [[?|] [?|]].
  - destruct (bool_decide _).
    + unfold bind at 1. destruct (_resolve_cd_target_reads key None b) as [p ->].
      destruct (Hset p []) as (r & b' & Hr & Hb & Hshape).
      exists r, b'. split; [exact Hr|]. split; [done|].
      by destruct r as [[?|] [?|]].
    + eexists _, _. split; [reflexivity|]. split; [by left | done].
Qed.

(** X11: the interceptor never raises; of its two outputs at most one is
    present and a present one is not empty; both are absent only for a
    blank instruction; and the state it leaves is the one it found or
    the one a successful [set] for this key left. *)
Theorem preprocess_command_for_cwd_shape (key : Z) (cmd : str)
    (is_windows : bool) (b : Bot) :
  exists r b',
    _preprocess_command_for_cwd key cmd is_windows b = (Ok r, b')
    /\ (b' = b \/ exists d, b' = stored b key d /\ normal_abs d
                            /\ startswith d (cs_base (cwd_store b)) = true
                            /\ isdir (world b) d = true)
    /\ match r with
       | (Some _, Some _) => False
       | (Some residual, None) => truthy residual = true
       | (None, Some msg) => truthy msg = true
       | (None, None) => truthy (strip cmd) = false /\ b' = b
       end.
Proof. apply _preprocess_command_for_cwd_cases. Qed.

(** ** The invoker, whatever the process does *)

Lemma run_command_cases (cmd : str) (work_dir : option str)
    (timeout : option Q) (b b' : Bot) (r : result CommandResult) :
  run_command cmd work_dir timeout b = (r, b') ->
  mode_store b' = mode_store b /\ cwd_store b' = cwd_store b
  /\ match r with
     | Raise e =>
         b' = b
         /\ create_subprocess_exec (world b) (wrap_command_for_shell cmd detect_os)
              (or_else work_dir getcwd) = Raise e
     | Ok res =>
         command res = cmd
         /\ exists proc,
             create_subprocess_exec (world b) (wrap_command_for_shell cmd detect_os)
               (or_else work_dir getcwd) = Ok proc
             /\ ((log b' = log b ++ [EvSpawn (wrap_command_for_shell cmd detect_os)
                                       (or_else work_dir getcwd)]
                  /\ world b' = p_done proc
                  /\ exit_code res = default 0 (p_returncode proc)
                  /\ (p_stdout proc = [] -> stdout res = [])
                  /\ (p_stderr proc = [] -> stderr res = []))
                 \/ (log b' = log b ++ [EvSpawn (wrap_command_for_shell cmd detect_os)
                                          (or_else work_dir getcwd); EvKill; EvWait]
                     /\ world b' = p_killed proc
                     /\ exit_code res = 124 /\ stdout res = []
                     /\ exists t, timeout = Some t /\ (t < p_duration proc)%Q))
     end.
Proof.
  unfold run_command, bind, get_bot, get_state, lift.
  destruct (create_subprocess_exec _ _ _) as [proc|e] eqn:Hspawn.
  - unfold wait_for_communicate.
    destruct timeout as [t|].
    + destruct (Qle_bool (p_duration proc) t) eqn:Hle.
      * intros [= <- <-]. simpl. repeat split. exists proc. split; [done|]. left.
        repeat split; by intros ->.
      * intros [= <- <-]. simpl. repeat split. exists proc. split; [done|]. right.
        rewrite <- !app_assoc. repeat split. exists t. split; [done|].
        apply Qnot_le_lt. intros Hc. apply Qle_bool_iff in Hc. congruence.
    + intros [= <- <-]. simpl. repeat split. exists proc. split; [done|]. left.
      repeat split; by intros ->.
  - intros [= <- <-]. by repeat split.
Qed.

(** X12: [run_command] leaves both stores alone. When the process cannot be
    created the error comes out and nothing at all has changed. Otherwise
    the result carries the command as given, one process was spawned, and
    either it ended in time (its status, a missing one read as 0, is the
    exit code, and an empty stream is the empty text) or it was killed
    and waited for and the exit code is 124. *)
Theorem run_command_outcomes (cmd : str) (work_dir : option str)
    (timeout : option Q) (b b' : Bot) (r : result CommandResult) :
  run_command cmd work_dir timeout b = (r, b') ->
  mode_store b' = mode_store b /\ cwd_store b' = cwd_store b
  /\ match r with
     | Raise e =>
         b' = b
         /\ create_subprocess_exec (world b) (wrap_command_for_shell cmd detect_os)
              (or_else work_dir getcwd) = Raise e
     | Ok res =>
         command res = cmd
         /\ exists proc,
             create_subprocess_exec (world b) (wrap_command_for_shell cmd detect_os)
               (or_else work_dir getcwd) = Ok proc
             /\ ((log b' = log b ++ [EvSpawn (wrap_command_for_shell cmd detect_os)
                                       (or_else work_dir getcwd)]
                  /\ world b' = p_done proc
                  /\ exit_code res = default 0 (p_returncode proc)
                  /\ (p_stdout proc = [] -> stdout res = [])
                  /\ (p_stderr proc = [] -> stderr res = []))
                 \/ (log b' = log b ++ [EvSpawn (wrap_command_for_shell cmd detect_os)
                                          (or_else work_dir getcwd); EvKill; EvWait]
                     /\ world b' = p_killed proc
                     /\ exit_code res = 124 /\ stdout res = []
                     /\ exists t, timeout = Some t /\ (t < p_duration proc)%Q))
     end.
Proof. apply run_command_cases. Qed.

(** ** The operating system profile *)

(** X13: [detect_os] names one of three systems, as the test expects; it is
    the windows family exactly when [platform.system()] is [Windows],
    with [powershell] as its shell, and the unix family with [/bin/bash]
    otherwise, also for a system it does not know. The argument vector
    starts with that shell and ends with the command, unchanged. *)
Theorem detect_os_known (cmd : str) :
  (os_name detect_os = lit "Windows" \/ os_name detect_os = lit "Linux"
   \/ os_name detect_os = lit "Darwin")
  /\ (is_windows detect_os = true <-> platform_system = lit "Windows")
  /\ (is_windows detect_os = true <-> os_name detect_os = lit "Windows")
  /\ os_shell detect_os
     = (if is_windows detect_os then lit "powershell" else lit "/bin/bash")
  /\ head (wrap_command_for_shell cmd detect_os) = Some (os_shell detect_os)
  /\ last (wrap_command_for_shell cmd detect_os) = Some cmd
  /\ length (wrap_command_for_shell cmd detect_os)
     = (if is_windows detect_os then 5 else 3)%nat.
Proof.
  unfold detect_os, wrap_command_for_shell.
  case_bool_decide as Hw; simpl.
  - repeat split; auto.
  - case_bool_decide as Hd; simpl; repeat split; auto; try discriminate;
      intros; congruence.
Qed.

(** ** The summarizer at the default limit *)

(** X14: with the default limit a summary never has more than 1800
    characters, for a text of fewer than 10^64 characters: it is the text
    itself up to 1800 characters, and beyond that 1080 characters of
    head, 630 of tail and a marker of 26 characters and the digits of
    the count. *)
Theorem summarize_output_default_bounded (text : str) :
  len text < 10 ^ 64 ->
  exists r,
    summarize_output_default text = Ok r
    /\ len r <= 1800
    /\ (len text <= 1800 -> r = text)
    /\ (1800 < len text ->
        len r = 1736 + len (str_of_int (len text - 1710))).
Proof.
  intros Hsmall. destruct (Z.le_gt_cases (len text) 1800) as [Hle|Hgt].
  - exists text. split; [by apply summarize_output_short|].
    split; [done|]. split; [done|lia].
  - eexists. split; [by apply summarize_output_head_tail_default|].
    assert (Hlen : len (first_chars 1080 text
                        ++ omitted_marker (len text - 1710) ++ last_chars 630 text)
                   = 1736 + len (str_of_int (len text - 1710))).
    { rewrite !len_app, len_omitted_marker, len_first_chars, len_last_chars by lia.
      lia. }
    rewrite Hlen. pose proof (str_of_int_length (len text - 1710) 64) as Hd.
    change (Z.of_nat 64) with 64 in Hd. split; [lia|]. split; [lia|done].
Qed.

End Engine2.

Lemma spawns_app (l1 l2 : list event) :
  spawns (l1 ++ l2) = (spawns l1 + spawns l2)%nat.
Proof. unfold spawns. by rewrite List.filter_app, length_app. Qed.

Lemma sends_app (l1 l2 : list event) :
  sends (l1 ++ l2) = (sends l1 + sends l2)%nat.
Proof. unfold sends. by rewrite List.filter_app, length_app. Qed.

Section Handling.

Context {H : Host}.

(** ** What handling leaves alone *)

Lemma grows_refl (b : Bot) : grows 0 b b.
Proof.
  split_and!; try done. exists []. by rewrite app_nil_r.
Qed.

Lemma grows_trans (k1 k2 : nat) (b b1 b2 : Bot) :
  grows k1 b b1 -> grows k2 b1 b2 -> grows (k1 + k2) b b2.
Proof.
  intros (Hm1 & Hb1 & Hp1 & Hi1 & l1 & Hl1 & Hk1)
         (Hm2 & Hb2 & Hp2 & Hi2 & l2 & Hl2 & Hk2).
  split_and!; try congruence; [auto|].
  exists (l1 ++ l2). rewrite Hl2, Hl1, <- app_assoc, spawns_app. split; [done|lia].
Qed.

Lemma grows_mono (k k' : nat) (b b' : Bot) :
  (k <= k')%nat -> grows k b b' -> grows k' b b'.
Proof.
  intros Hk (Hm & Hb & Hp & Hi & l & Hl & Hs).
  split_and!; try done. exists l. split; [done|lia].
Qed.

Lemma grows_extends (k : nat) (b b' : Bot) : grows k b b' -> extends b b'.
Proof.
  intros (Hm & Hb & Hp & Hi & l & Hl & _). split_and!; try done. by exists l.
Qed.

Lemma within_budget_bind {A B} (k1 k2 : nat) (m : M Bot A) (f : A -> M Bot B) :
  within_budget k1 m -> (forall a, within_budget k2 (f a)) ->
  within_budget (k1 + k2) (bind m f).
Proof.
  intros Hm Hf b r b'. unfold bind.
  destruct (m b) as [[a|e] b1] eqn:Hmb.
  - intros Hfa. eapply grows_trans; [by eapply Hm | by eapply Hf].
  - intros [= <- <-]. eapply grows_mono; [|by eapply Hm]. lia.
Qed.

Lemma within_budget_mono {A} (k k' : nat) (m : M Bot A) :
  (k <= k')%nat -> within_budget k m -> within_budget k' m.
Proof. intros Hk Hm b r b' Hr. eapply grows_mono; [done | by eapply Hm]. Qed.

Lemma within_budget_ret {A} (a : A) : within_budget 0 (ret a).
Proof. intros b r b' [= <- <-]. apply grows_refl. Qed.

Lemma within_budget_raise {A} (e : exn) : within_budget 0 (raise (A := A) e).
Proof. intros b r b' [= <- <-]. apply grows_refl. Qed.

Lemma within_budget_lift {A} (x : result A) : within_budget 0 (lift x).
Proof. intros b r b' [= <- <-]. apply grows_refl. Qed.

Lemma within_budget_send (msg : str) : within_budget 0 (send msg).
Proof.
  intros b r b' [= <- <-]. split_and!; try done. by exists [EvSend msg].
Qed.

Lemma within_budget_CwdStore_get (key : Z) : within_budget 0 (CwdStore_get key).
Proof. intros b r b'. rewrite CwdStore_get_eq. intros [= <- <-]. apply grows_refl. Qed.

Lemma within_budget_ModeStore_get (key : Z) : within_budget 0 (ModeStore_get key).
Proof. intros b r b'. rewrite ModeStore_get_eq. intros [= <- <-]. apply grows_refl. Qed.

Lemma grows_stored (b : Bot) (key : Z) (d : str) :
  normal_abs d -> startswith d (cs_base (cwd_store b)) = true ->
  grows 0 b (stored b key d).
Proof.
  intros Hd Hin. split_and!; try done.
  - intros Hs. by apply cwd_prefixed_insert.
  - exists []. by rewrite app_nil_r.
Qed.

Lemma within_budget_preprocess (key : Z) (cmd : str) (w : bool) :
  within_budget 0 (_preprocess_command_for_cwd key cmd w).
Proof.
  intros b r b' Hr.
  destruct (_preprocess_command_for_cwd_cases key cmd w b)
    as (r0 & b0 & Hr0 & Hb0 & _).
  rewrite Hr0 in Hr. injection Hr as <- <-.
  destruct Hb0 as [->|(d & -> & Hd & Hin & _)];
    [apply grows_refl | by apply grows_stored].
Qed.

Lemma within_budget_run_command (cmd : str) (work_dir : option str)
    (t : option Q) :
  within_budget 1 (run_command cmd work_dir t).
Proof.
  intros b r b'. unfold run_command, bind, get_bot, get_state, lift.
  destruct (create_subprocess_exec _ _ _) as [proc|e].
  - destruct (wait_for_communicate proc t) as [[o e]|]; intros [= <- <-];
      (split_and!; try done); simpl; rewrite <- ?app_assoc; simpl;
      eexists; (split; [reflexivity|]); vm_compute; lia.
  - intros [= <- <-]. eapply grows_mono; [|apply grows_refl]. lia.
Qed.

Lemma within_budget_run_single (key : Z) (cmd : str) :
  within_budget 1 (run_single key cmd).
Proof.
  unfold run_single.
  apply (within_budget_bind 0 1); [apply within_budget_preprocess|].
  intros [remainder changed]. destruct (_ && _).
  - eapply within_budget_mono; [|apply within_budget_send]. lia.
  - apply (within_budget_bind 0 1); [apply within_budget_CwdStore_get|].
    intros work_dir.
    apply (within_budget_bind 1 0); [apply within_budget_run_command|].
    intros result.
    apply (within_budget_bind 0 0); [apply within_budget_lift|].
    intros msg. apply within_budget_send.
Qed.

Lemma within_budget_plan_step (key n idx : Z) (cmd : str) :
  within_budget 1 (plan_step key n idx cmd).
Proof.
  unfold plan_step.
  apply (within_budget_bind 0 1); [apply within_budget_preprocess|].
  intros [remainder changed]. destruct (_ && _).
  - eapply within_budget_mono;
      [|apply (within_budget_bind 0 0);
         [apply within_budget_send | intros; apply within_budget_ret]]. lia.
  - apply (within_budget_bind 0 1); [apply within_budget_send|]. intros _.
    apply (within_budget_bind 0 1); [apply within_budget_CwdStore_get|].
    intros work_dir.
    apply (within_budget_bind 1 0); [apply within_budget_run_command|].
    intros result.
    apply (within_budget_bind 0 0); [apply within_budget_lift|].
    intros msg.
    apply (within_budget_bind 0 0); [apply within_budget_send|]. intros _.
    destruct (negb _).
    + apply (within_budget_bind 0 0); [apply within_budget_send|]. intros _.
      apply within_budget_ret.
    + apply within_budget_ret.
Qed.

Lemma within_budget_plan_loop (key n : Z) (commands : list str) :
  forall idx, within_budget (length commands) (plan_loop key n idx commands).
Proof.
  induction commands as [|cmd rest IH]; intros idx; simpl.
  - apply within_budget_ret.
  - apply (within_budget_bind 1 (length rest)); [apply within_budget_plan_step|].
    intros [|]; [|apply IH].
    eapply within_budget_mono; [|apply within_budget_ret]. lia.
Qed.

Lemma within_budget_dispatch_plan (key : Z) (commands : list str) :
  within_budget (Nat.max 1 (length commands)) (dispatch_plan key commands).
Proof.
  unfold dispatch_plan. destruct (len commands <=? 1).
  - destruct commands as [|cmd rest].
    + eapply within_budget_mono; [|apply within_budget_raise]. lia.
    + eapply within_budget_mono; [|apply within_budget_run_single]. lia.
  - eapply within_budget_mono;
      [|apply (within_budget_bind 0 (length commands));
         [apply within_budget_send | intros; apply within_budget_plan_loop]].
    lia.
Qed.

End Handling.

(** ** The oracle's answers *)

Lemma first_line_single (x : str) :
  forallb (fun c => negb (is_linebreak c)) (first_line x) = true.
Proof.
  induction x as [|c x IH]; [done|]. simpl.
  destruct (is_linebreak c) eqn:Hc; [done|]. simpl. by rewrite Hc.
Qed.

Lemma first_line_app (tag rest : str) (c : ascii) :
  forallb (fun c => negb (is_linebreak c)) tag = true ->
  is_linebreak c = true ->
  first_line (tag ++ c :: rest) = tag.
Proof.
  intros Ht Hc. induction tag as [|d tag IH]; simpl.
  - by rewrite Hc.
  - simpl in Ht. apply andb_true_iff in Ht as [Hd Ht].
    apply negb_true_iff in Hd. rewrite Hd. by rewrite IH.
Qed.

Lemma lstrip_by_stop (p : ascii -> bool) (c : ascii) (x : str) :
  p c = false -> lstrip_by p (c :: x) = c :: x.
Proof. intros Hc. simpl. by rewrite Hc. Qed.

Lemma lstrip_by_all (p : ascii -> bool) (pre x : str) :
  forallb p pre = true -> lstrip_by p (pre ++ x) = lstrip_by p x.
Proof.
  induction pre as [|c pre IH]; [done|]. simpl.
  intros [Hc Hp]%andb_true_iff. rewrite Hc. auto.
Qed.

Lemma slice_to_length {A} (x : list A) (k : Z) :
  0 <= k -> len (slice_to x k) <= k.
Proof.
  intros Hk. unfold slice_to, len, clamp_index. rewrite length_take.
  assert ((k <? 0) = false) as -> by lia. lia.
Qed.

Section Oracle.

Context {H : Host}.

Lemma to_command_from_nl_cases (message style : str) :
  match to_command_from_nl message style with
  | Ok cmd =>
      truthy cmd = true
      /\ forallb (fun c => negb (is_linebreak c)) cmd = true
  | Raise e => exists prompt, generate_text prompt = Raise e
  end.
Proof.
  unfold to_command_from_nl.
  match goal with |- context [generate_text ?p] =>
    destruct (generate_text p) as [text|e] eqn:Hg end; simpl; [|by eexists].
  match goal with |- context [first_line ?t] => generalize t end.
  intros t. destruct (truthy t).
  - pose proof (first_line_single t) as Hl.
    destruct (first_line t) as [|c l]; simpl; [|done].
    case_bool_decide; by vm_compute.
  - simpl. case_bool_decide; by vm_compute.
Qed.

(** X15: whatever the oracle answers, the command [to_command_from_nl] returns
    is not empty and has no line break in it; it raises only what the
    request to the oracle raised. *)
Theorem to_command_from_nl_single_line (message style : str) :
  match to_command_from_nl message style with
  | Ok cmd =>
      truthy cmd = true
      /\ forallb (fun c => negb (is_linebreak c)) cmd = true
  | Raise e => exists prompt, generate_text prompt = Raise e
  end.
Proof. apply to_command_from_nl_cases. Qed.

(** X16: an answer in a code fence, three backticks, a language tag, a line
    break, the command, a line break and three backticks, does not give
    the command inside the fence: the backticks are stripped at both
    ends and the first line of what is left is the tag, which is
    returned; with no tag the first line is empty and the fallback is
    returned. *)
Theorem to_command_from_nl_fenced (message style tag body : str) :
  (forall prompt,
     generate_text prompt
     = Ok (lit "```" ++ tag ++ nl :: body ++ nl :: lit "```")) ->
  forallb (fun c => negb (is_linebreak c) && negb (isspace c)
                    && negb (ascii_eqb backtick c)) tag = true ->
  to_command_from_nl message style
  = Ok (if truthy tag then tag
        else if bool_decide (style = POWERSHELL)
             then lit "Write-Output 'Unable to determine a command'"
             else lit "echo 'Unable to determine a command'").
Proof.
  intros Hg Htag.
  set (answer := lit "```" ++ tag ++ nl :: body ++ nl :: lit "```") in *.
  set (inner := tag ++ nl :: body ++ [nl]).
  set (ticks := [backtick; backtick; backtick]).
  assert (Hanswer : answer = backtick :: backtick :: backtick :: inner ++ ticks).
  { unfold answer, inner, ticks. change (lit "```") with [backtick; backtick; backtick].
    simpl. do 3 f_equal. rewrite <- !app_assoc. simpl.
    f_equal. f_equal. by rewrite <- app_assoc. }
  assert (Hrev : rev answer = backtick :: backtick :: backtick :: rev inner ++ ticks).
  { rewrite Hanswer.
    change (backtick :: backtick :: backtick :: inner ++ ticks)
      with (ticks ++ inner ++ ticks).
    by rewrite !rev_app_distr, <- app_assoc. }
  assert (Hrev_inner : rev inner = nl :: rev (tag ++ nl :: body)).
  { unfold inner. change (tag ++ nl :: body ++ [nl]) with (tag ++ (nl :: body) ++ [nl]).
    by rewrite app_assoc, rev_app_distr. }
  assert (Hstrip : strip answer = answer).
  { unfold strip, strip_by, rstrip_by.
    rewrite Hanswer at 1. rewrite (lstrip_by_stop isspace) by done.
    rewrite <- Hanswer, Hrev, (lstrip_by_stop isspace) by done.
    by rewrite <- Hrev, rev_involutive. }
  assert (Htag_line : forallb (fun c => negb (is_linebreak c)) tag = true).
  { revert Htag. clear. induction tag as [|c tag IH]; [done|]. simpl.
    intros [[[Hc _]%andb_true_iff _]%andb_true_iff Ht]%andb_true_iff.
    rewrite Hc. auto. }
  assert (Hinner : lstrip_by (ascii_eqb backtick) (inner ++ ticks) = inner ++ ticks).
  { unfold inner. destruct tag as [|c tag']; [done|]. simpl in Htag |- *.
    apply andb_true_iff in Htag as [[_ Hc%negb_true_iff]%andb_true_iff _].
    by rewrite Hc. }
  assert (Hticks : strip_char backtick answer = inner).
  { unfold strip_char, strip_by, rstrip_by. rewrite Hanswer.
    change (backtick :: backtick :: backtick :: inner ++ ticks)
      with (ticks ++ inner ++ ticks).
    rewrite (lstrip_by_all _ ticks (inner ++ ticks)) by done.
    rewrite Hinner, rev_app_distr.
    rewrite (lstrip_by_all _ (rev ticks)) by done.
    rewrite Hrev_inner, (lstrip_by_stop (ascii_eqb backtick)) by done.
    by rewrite <- Hrev_inner, rev_involutive. }
  assert (Htruthy : truthy answer = true) by by rewrite Hanswer.
  assert (Htruthy_inner : truthy inner = true) by by (unfold inner; destruct tag).
  unfold to_command_from_nl. rewrite Hg. unfold rbind. cbv zeta.
  rewrite Htruthy, Hstrip, Hticks, Htruthy_inner.
  unfold inner. rewrite first_line_app by done.
  by destruct (truthy tag).
Qed.

Lemma to_commands_from_nl_cases (message style : str) (max_steps : Z) :
  0 <= max_steps ->
  match to_commands_from_nl message style max_steps with
  | Ok cmds => len cmds <= Z.max 1 max_steps
  | Raise e => exists prompt, generate_text prompt = Raise e
  end.
Proof.
  intros Hk. unfold to_commands_from_nl.
  match goal with |- context [generate_text ?p] =>
    destruct (generate_text p) as [text|e] eqn:Hg end; simpl; [|by eexists].
  match goal with |- context [match ?parsed with Some arr => Ok _ | None => _ end] =>
    destruct parsed as [arr|] end.
  - pose proof (slice_to_length arr max_steps Hk). lia.
  - pose proof (to_command_from_nl_cases message style) as Hone.
    destruct (to_command_from_nl message style) as [one|e]; simpl; [|done].
    unfold len. simpl. lia.
Qed.

(** X17: with a limit that is not negative, [to_commands_from_nl] never
    returns more commands than the larger of 1 and the limit: an array
    of the oracle is cut to the limit and the fallback is one command.
    It raises only what a request to the oracle raised. *)
Theorem to_commands_from_nl_bounded (message style : str) (max_steps : Z) :
  0 <= max_steps ->
  match to_commands_from_nl message style max_steps with
  | Ok cmds => len cmds <= Z.max 1 max_steps
  | Raise e => exists prompt, generate_text prompt = Raise e
  end.
Proof.
  apply to_commands_from_nl_cases.
Qed.

End Oracle.

Section Messages.

Context {H : Host}.

(** ** The gates *)

(** X18: a location passes when the guild list is empty or holds the guild of
    the message, a direct message having none, and the channel list is
    empty or holds the channel key, which for a thread is its parent's
    id. A user passes when the user list is empty or holds the author. *)
Theorem gates_iff (m : Message) :
  (_is_allowed_location m = true <->
     (ALLOWED_GUILD_IDS = ∅
      \/ exists g, guild_id m = Some g /\ g ∈ ALLOWED_GUILD_IDS)
     /\ (ALLOWED_CHANNEL_IDS = ∅
         \/ default (channel_id m) (channel_parent m) ∈ ALLOWED_CHANNEL_IDS))
  /\ (_is_allowed_user m = true <->
        ALLOWED_USER_IDS = ∅ \/ author_id m ∈ ALLOWED_USER_IDS).
Proof.
  assert (Hkey : _channel_key_from_obj m = default (channel_id m) (channel_parent m)).
  { unfold _channel_key_from_obj. by destruct (channel_parent m). }
  rewrite <- Hkey. unfold _is_allowed_location, _is_allowed_user. split.
  - destruct (decide (ALLOWED_GUILD_IDS = ∅)), (decide (ALLOWED_CHANNEL_IDS = ∅)),
      (guild_id m) as [g|];
      repeat case_bool_decide; simpl; split;
      try (intros [[?|(g' & [=] & ?)] [?|?]]); subst; try done;
      intros _; (split; [(by left) || (right; by eauto) | (by left) || by right]).
  - destruct (decide (ALLOWED_USER_IDS = ∅));
      repeat case_bool_decide; simpl; split; try (intros [?|?]); try done;
      intros _; (by left) || by right.
Qed.

(** X19: for a message of a bot, of a user or from a place that the gates
    refuse, or with nothing but blanks in it, the handler's own code
    does nothing to the state: both stores and the machine are as
    before and no process is started. Messages are not spoken of: the
    commands extension may have answered. *)
Theorem on_message_ignores (m : Message) (b : Bot) :
  author_bot m = true \/ _is_allowed_user m = false
  \/ _is_allowed_location m = false \/ truthy (strip (content m)) = false ->
  mode_store (on_message m b).2 = mode_store b
  /\ cwd_store (on_message m b).2 = cwd_store b
  /\ world (on_message m b).2 = world b
  /\ exists l, log (on_message m b).2 = log b ++ l /\ spawns l = 0%nat.
Proof.
  intros Hcase.
  assert (Hsame : on_message m b = (Ok tt, b)).
  { unfold on_message.
    destruct (author_bot m); [done|].
    destruct (_is_allowed_user m); [|done].
    destruct (_is_allowed_location m); [|done].
    destruct Hcase as [?|[?|[?|Hblank]]]; try done.
    simpl. unfold bind.
    destruct (guild_id m).
    - rewrite ModeStore_get_eq. by rewrite Hblank.
    - unfold ret. by rewrite Hblank. }
  rewrite Hsame. split_and!; try done. exists []. by rewrite app_nil_r.
Qed.

(** ** What handling a message leaves alone *)

Lemma on_message_grows (m : Message) (b b' : Bot) (r : result unit) :
  on_message m b = (r, b') ->
  exists k, grows k b b'
            /\ (0 <= CHAT_MAX_STEPS -> (k <= Z.to_nat (Z.max 1 CHAT_MAX_STEPS))%nat).
Proof.
  unfold on_message.
  destruct (author_bot m);
    [intros [= <- <-]; exists 0%nat; split; [apply grows_refl | lia]|].
  destruct (negb (_is_allowed_user m));
    [intros [= <- <-]; exists 0%nat; split; [apply grows_refl | lia]|].
  destruct (negb (_is_allowed_location m));
    [intros [= <- <-]; exists 0%nat; split; [apply grows_refl | lia]|].
  unfold bind at 1.
  assert (Hmode : exists modev,
            match guild_id m with
            | Some _ => ModeStore_get (_channel_key_from_obj m)
            | None => ret DEFAULT_MODE
            end b = (Ok modev, b)).
  { destruct (guild_id m); [rewrite ModeStore_get_eq|]; by eexists. }
  destruct Hmode as [modev ->].
  destruct (negb (truthy (strip (content m)))).
  { intros [= <- <-]. exists 0%nat. split; [apply grows_refl | lia]. }
  case_bool_decide.
  - intros Hr. exists 1%nat. split; [by eapply within_budget_run_single | lia].
  - unfold bind, lift.
    match goal with |- context [to_commands_from_nl ?c ?s ?k] =>
      pose proof (to_commands_from_nl_cases c s k) as Hplan;
      destruct (to_commands_from_nl c s k) as [commands|e] end.
    + intros Hr. exists (Nat.max 1 (length commands)). split.
      * by eapply within_budget_dispatch_plan.
      * intros Hk. specialize (Hplan Hk). unfold len in Hplan. lia.
    + intros [= <- <-]. exists 0%nat. split; [apply grows_refl | lia].
Qed.

(** X20: whatever a message is and however handling it ends, it leaves the
    mode store, the root of the sandbox and the path of the snapshot as
    they were; directories that were normalized absolute paths with the
    root as a prefix of their text still are; and the log is the old one
    with what was done added at its end. *)
Theorem on_message_extends (m : Message) (b : Bot) :
  extends b (on_message m b).2.
Proof.
  destruct (on_message m b) as [r b'] eqn:Hr.
  apply on_message_grows in Hr as (k & Hk & _). by eapply grows_extends.
Qed.

(** X21: with a step limit that is not negative, handling one message starts
    at most as many processes as the larger of 1 and the limit. *)
Theorem on_message_spawn_budget (m : Message) (b : Bot) :
  0 <= CHAT_MAX_STEPS ->
  exists l,
    log (on_message m b).2 = log b ++ l
    /\ (spawns l <= Z.to_nat (Z.max 1 CHAT_MAX_STEPS))%nat.
Proof.
  intros Hsteps. destruct (on_message m b) as [r b'] eqn:Hr.
  apply on_message_grows in Hr as (k & (_ & _ & _ & _ & l & Hl & Hs) & Hk).
  exists l. split; [done|]. specialize (Hk Hsteps). lia.
Qed.

(** ** One command *)

(** X22: when [run_single] returns, exactly one message was sent, and it is
    the last thing in the log; before it at most one process was
    started. When it raises, creating the process raised, and nothing
    was sent or started. *)
Theorem run_single_sends_once (key : Z) (cmd : str) (b : Bot) :
  match run_single key cmd b with
  | (Ok _, b') =>
      exists l msg,
        log b' = log b ++ l ++ [EvSend msg]
        /\ sends l = 0%nat /\ (spawns l <= 1)%nat
  | (Raise e, b') =>
      log b' = log b
      /\ exists argv cwd w, create_subprocess_exec w argv cwd = Raise e
  end.
Proof.
  unfold run_single, bind.
  destruct (_preprocess_command_for_cwd key cmd (is_windows detect_os) b)
    as [[[remainder changed]|e] b1] eqn:Hpre.
  - apply _preprocess_command_for_cwd_log in Hpre as Hlog.
    destruct (_ && _).
    + unfold send, emit. simpl. exists [], (default [] changed).
      rewrite Hlog. split; [done|]. vm_compute. split; [done | lia].
    + rewrite CwdStore_get_eq.
      destruct (run_command _ _ _ b1) as [[result|e] b2] eqn:Hrun.
      * apply run_command_log in Hrun as (tail & Htail & Hkill).
        destruct (report_total (single_head cmd) result) as [t Hrep].
        unfold lift. rewrite Hrep. unfold send, emit. simpl.
        eexists _, _. rewrite Htail, Hlog, <- app_assoc. split; [reflexivity|].
        destruct Hkill as [-> | ->]; vm_compute; split; (done || lia).
      * pose proof (run_command_cases _ _ _ _ _ _ Hrun) as (_ & _ & -> & Hspawn).
        split; [done|]. eauto.
  - destruct (_preprocess_command_for_cwd_cases key cmd (is_windows detect_os) b)
      as (r0 & b0 & Hr0 & _). congruence.
Qed.

(** ** One step of a plan *)

(** X23: the loop over a plan breaks only after an invocation that returned a
    nonzero exit code, and then the last two messages are that
    invocation's report and the stop notice: a step that only changed
    the directory, or failed to change it, never stops the plan. *)
Theorem plan_step_stops_only_on_failure (key n idx : Z) (cmd : str) (b b' : Bot) :
  plan_step key n idx cmd b = (Ok true, b') ->
  exists result b2 msg,
    step_invoked key n idx cmd b result b2
    /\ exit_code result <> 0
    /\ report step_head result = Ok msg
    /\ b' = with_log b2 (log b2 ++ [EvSend msg; EvSend (stop_notice idx)]).
Proof.
  unfold plan_step, bind.
  destruct (_preprocess_command_for_cwd key cmd (is_windows detect_os) b)
    as [[[remainder changed]|e] b1] eqn:Hpre; [|done].
  destruct (_ && _) eqn:Hgate; [done|].
  unfold send at 1, emit at 1. rewrite CwdStore_get_eq. cbv beta iota.
  match goal with |- context [run_command ?c ?w ?t ?s] =>
    destruct (run_command c w t s) as [[result|e] b2] eqn:Hrun end; [|done].
  unfold lift. destruct (report step_head result) as [msg|e] eqn:Hrep; [|done].
  unfold send, emit. cbv beta iota.
  destruct (exit_code result =? 0) eqn:Hexit; [done|]. simpl.
  intros [= <-]. exists result, b2, msg. split_and!.
  - exists remainder, changed, b1. by repeat split.
  - by apply Z.eqb_neq.
  - done.
  - unfold with_log. simpl. by rewrite <- app_assoc.
Qed.

End Messages.

Section Console.

Context {H : Host} {C : Console}.

(** ** What is run, and where *)

Lemma _preprocess_command_for_cwd_other (key : Z) (cmd : str) (w : bool) (b : Bot) :
  recognized w (strip cmd) = false ->
  _preprocess_command_for_cwd key cmd w b
  = (Ok (if truthy (strip cmd) then Some (strip cmd) else None, None), b).
Proof.
  intros Hno. unfold recognized in Hno.
  apply orb_false_iff in Hno as [Hmain Hbare].
  unfold _preprocess_command_for_cwd.
  destruct (truthy (strip cmd)); [|done]. simpl negb. cbv iota.
  rewrite Hbare. apply bool_decide_eq_false in Hmain.
  destruct (re.match_ _ (strip cmd)) as [c|] eqn:E; [|reflexivity].
  exfalso. apply Hmain. by eexists.
Qed.

(** X24: for a command that is no directory change, [run_single] starts the
    shell in the session's directory, or in the process's own when that
    text is empty, on the command without the blanks around it; a command
    of blanks only is not dropped: the shell is started on it as it is.
    The stores are not touched. *)
Theorem run_single_runs_trimmed (key : Z) (cmd : str) (b : Bot) :
  recognized (is_windows detect_os) (strip cmd) = false ->
  (run_single key cmd b).1
  = rbind (create_subprocess_exec (world b)
             (wrap_command_for_shell
                (if truthy (strip cmd) then strip cmd else cmd) detect_os)
             (or_else (Some (current_dir b key)) getcwd))
      (fun _ => Ok tt)
  /\ mode_store (run_single key cmd b).2 = mode_store b
  /\ cwd_store (run_single key cmd b).2 = cwd_store b.
Proof.
  intros Hno.
  assert (Hcmd : or_else (if truthy (strip cmd) then Some (strip cmd) else None) cmd
                 = if truthy (strip cmd) then strip cmd else cmd).
  { destruct (truthy (strip cmd)) eqn:Hs; [|done]. simpl. by rewrite Hs. }
  assert (Heq : run_single key cmd b
                = (result <- run_command (if truthy (strip cmd) then strip cmd else cmd)
                               (Some (current_dir b key)) (Some COMMAND_TIMEOUT_SEC) ;;
                   msg <- lift (report (single_head cmd) result) ;;
                   send msg) b).
  { unfold run_single, bind at 1.
    rewrite _preprocess_command_for_cwd_other by done.
    cbv beta iota.
    assert (truthy_opt None
            && negb (truthy_opt (if truthy (strip cmd)
                                 then Some (strip cmd) else None)) = false) as ->
      by done.
    unfold bind at 1. rewrite CwdStore_get_eq. by rewrite Hcmd. }
  rewrite Heq. unfold bind.
  destruct (run_command _ _ _ b) as [[result|e] b1] eqn:Hrun;
    pose proof (run_command_cases _ _ _ _ _ _ Hrun) as (Hm & Hc & Hres).
  - destruct Hres as (_ & proc & -> & _).
    destruct (report_total (single_head cmd) result) as [t Hrep].
    unfold lift. rewrite Hrep. simpl. by rewrite Hm, Hc.
  - destruct Hres as (-> & ->). done.
Qed.

(** ** The [cwd] command *)

Lemma log_one_more (l : list event) (x y : event) : l ++ [x] = l ++ [y] -> x = y.
Proof. intros Hl. apply app_inv_head in Hl. by injection Hl. Qed.

Lemma log_not_longer (l : list event) (x : event) : l <> l ++ [x].
Proof.
  intros Hl. apply (f_equal length) in Hl. rewrite length_app in Hl. simpl in Hl. lia.
Qed.

(** X25: the [cwd] command starts no process and replies at most once; the
    mode store, the root and the invariant of the directory store are
    kept. To a user who is not let in it replies that and does nothing
    else; for a user or a place the gates refuse it does nothing. *)
Theorem cwd_cmd_replies_once (i : Interaction) (path : option str) (b : Bot) :
  grows 0 b (cwd_cmd i path b).2
  /\ (exists l, log (cwd_cmd i path b).2 = log b ++ l
                /\ (length l <= 1)%nat /\ spawns l = 0%nat)
  /\ (user_allowed i = false ->
      cwd_cmd i path b
      = (Ok tt, with_log b (log b ++ [EvSend (lit "Not authorized.")])))
  /\ (user_allowed i = true ->
      _is_allowed_user (origin i) = false \/ _is_allowed_location (origin i) = false ->
      cwd_cmd i path b = (Ok tt, b)).
Proof.
  assert (Hmain : forall b' r, cwd_cmd i path b = (r, b') ->
            (b' = b
             \/ (exists d, b' = stored b (_channel_key_from_obj (origin i)) d
                           /\ normal_abs d
                           /\ startswith d (cs_base (cwd_store b)) = true)
             \/ (exists msg, b' = with_log b (log b ++ [EvSend msg])))
            \/ exists d msg,
                 normal_abs d /\ startswith d (cs_base (cwd_store b)) = true
                 /\ b' = with_log (stored b (_channel_key_from_obj (origin i)) d)
                           (log b ++ [EvSend msg])).
  { intros b' r. unfold cwd_cmd.
    destruct (negb (user_allowed i)); [intros [= <- <-]; left; right; right; eexists; reflexivity|].
    destruct (negb (_is_allowed_user _)); [intros [= <- <-]; left; by left|].
    destruct (negb (_is_allowed_location _)); [intros [= <- <-]; left; by left|].
    destruct path as [p|].
    - unfold bind at 1.
      destruct (_resolve_cd_target_reads (_channel_key_from_obj (origin i)) (Some p) b)
        as [target ->].
      unfold try_except, bind. rewrite CwdStore_set_eq. cbv zeta.
      destruct (startswith _ _) eqn:Hin; simpl;
        [|intros [= <- <-]; left; right; right; eexists; reflexivity].
      destruct (isdir _ _); simpl;
        [|intros [= <- <-]; left; right; right; eexists; reflexivity].
      destruct (changed_message_total getcwd target) as [msg Hmsg].
      unfold lift. rewrite Hmsg. intros [= <- <-]. right.
      exists (abspath getcwd target), msg.
      split; [apply abspath_normal, getcwd_absolute|]. by split.
    - unfold bind. rewrite CwdStore_get_eq. unfold lift.
      destruct (relpath _ _ _); intros [= <- <-];
        [left; right; right; eexists; reflexivity | left; by left]. }
  split; [|split; [|split]].
  - destruct (cwd_cmd i path b) as [r b'] eqn:Hr. simpl.
    destruct (Hmain b' r eq_refl) as [[->|[(d & -> & Hd & Hin)|(msg & ->)]]
                                |(d & msg & Hd & Hin & ->)].
    + apply grows_refl.
    + by apply grows_stored.
    + split_and!; try done. by exists [EvSend msg].
    + split_and!; try done.
      * intros Hs. by apply cwd_prefixed_insert.
      * by exists [EvSend msg].
  - destruct (cwd_cmd i path b) as [r b'] eqn:Hr. simpl.
    destruct (Hmain b' r eq_refl) as [[->|[(d & -> & Hd & Hin)|(msg & ->)]]
                                |(d & msg & Hd & Hin & ->)].
    + exists []. rewrite app_nil_r. split_and!; [done | simpl; lia | done].
    + exists []. rewrite app_nil_r. split_and!; [done | simpl; lia | done].
    + exists [EvSend msg]. split_and!; [done | simpl; lia | done].
    + exists [EvSend msg]. split_and!; [done | simpl; lia | done].
  - intros Hno. unfold cwd_cmd. by rewrite Hno.
  - intros Hyes Hgate. unfold cwd_cmd. rewrite Hyes. simpl.
    destruct Hgate as [-> | Hloc]; [done|]. rewrite Hloc.
    by destruct (_is_allowed_user _).
Qed.

(** X26: after the [cwd] command replied that the directory changed to some
    relative path, the same command without a path shows that relative
    path as the current directory. *)
Theorem cwd_cmd_show_after_change (i : Interaction) (p rel : str)
    (b b1 : Bot) (r : result unit) :
  cwd_cmd i (Some p) b = (r, b1) ->
  log b1 = log b ++ [EvSend (lit "Changed directory to " ++ backtick :: rel ++ [backtick])] ->
  cwd_cmd i None b1
  = (Ok tt, with_log b1 (log b1 ++ [EvSend (current_message rel)])).
Proof.
  unfold cwd_cmd.
  destruct (negb (user_allowed i));
    [intros [= <- <-] Hl; simpl in Hl; apply log_one_more in Hl; discriminate|].
  destruct (negb (_is_allowed_user _));
    [intros [= <- <-] Hl; by apply log_not_longer in Hl|].
  destruct (negb (_is_allowed_location _));
    [intros [= <- <-] Hl; by apply log_not_longer in Hl|].
  unfold bind at 1.
  destruct (_resolve_cd_target_reads (_channel_key_from_obj (origin i)) (Some p) b)
    as [target ->].
  unfold try_except, bind at 1. rewrite CwdStore_set_eq. cbv zeta.
  destruct (startswith _ _); simpl;
    [|intros [= <- <-] Hl; simpl in Hl; apply log_one_more in Hl; discriminate].
  destruct (isdir _ _); simpl;
    [|intros [= <- <-] Hl; simpl in Hl; apply log_one_more in Hl; discriminate].
  unfold bind, lift, changed_message.
  destruct (relpath getcwd (abspath getcwd target) (abspath getcwd WORK_DIR))
    as [rel'|e] eqn:Hrel; simpl;
    [|intros [= <- <-] Hl; simpl in Hl; apply log_one_more in Hl; discriminate].
  intros [= <- <-] Hl. simpl in Hl. apply log_one_more in Hl.
  injection Hl as Hl. apply app_inj_tail in Hl as [-> _].
  cbn [cwd_store cs_cwd cs_base]. rewrite lookup_insert_eq. cbn [default]. unfold id.
  by rewrite Hrel.
Qed.

(** ** The modals *)

(** X27: a path given to a modal that is absolute is taken as it is, the root
    of the sandbox is not put before it, and it is accepted when the
    root's text is a prefix of its text: the directory of the path is
    created, the file is written there and the reply names it. Both
    modals do the same, the first after stripping the blanks around the
    path. *)
Theorem modal_saves_absolute_path_as_given (i : Interaction) (filename q text : str)
    (b : Bot) (w1 w2 : World) :
  user_allowed i = true ->
  strip filename = q ->
  normal_abs q ->
  startswith q (abspath getcwd WORK_DIR) = true ->
  makedirs (world b) (dirname q) = Ok w1 ->
  write_text w1 q text = Ok w2 ->
  FileEditModal_on_submit i filename text b
  = (Ok tt, with_log (with_world b w2) (log b ++ [EvSend (saved_message q text)]))
  /\ EditExistingFileModal_on_submit i q text b
     = (Ok tt, with_log (with_world b w2) (log b ++ [EvSend (saved_message q text)])).
Proof.
  intros Hyes Hq Hn Hin Hmk Hwr.
  assert (Hsave : save_file q text b
          = (Ok tt, with_log (with_world b w2) (log b ++ [EvSend (saved_message q text)]))).
  { unfold save_file. rewrite join_absolute by by apply normal_abs_isabs.
    rewrite abspath_of_normal by done. rewrite Hin. simpl.
    unfold bind, get_bot, get_state, lift. rewrite Hmk. simpl. by rewrite Hwr. }
  unfold FileEditModal_on_submit, EditExistingFileModal_on_submit.
  by rewrite Hyes, Hq.
Qed.

End Console.

(** ** The further properties on the small hosts *)

Lemma normal_abs_box_sub : normal_abs (lit "/srv/box/sub").
Proof.
  exists 1%nat, [lit "srv"; lit "box"; lit "sub"].
  split; [by left|]. split; [|reflexivity].
  repeat constructor; discriminate.
Qed.

Lemma normal_abs_box_gone : normal_abs (lit "/srv/box/gone").
Proof.
  exists 1%nat, [lit "srv"; lit "box"; lit "gone"].
  split; [by left|]. split; [|reflexivity].
  repeat constructor; discriminate.
Qed.

Lemma normal_abs_boxes_file : normal_abs (lit "/srv/boxes/f").
Proof.
  exists 1%nat, [lit "srv"; lit "boxes"; lit "f"].
  split; [by left|]. split; [|reflexivity].
  repeat constructor; discriminate.
Qed.

Lemma toy_sessions_prefixed (k : Z) (v : str) :
  toy_sessions !! k = Some v ->
  normal_abs v /\ startswith v (lit "/srv/box") = true.
Proof.
  unfold toy_sessions. rewrite lookup_insert. case_decide.
  - intros [= <-]. split; [apply normal_abs_box_sub | reflexivity].
  - rewrite lookup_insert. case_decide.
    + intros [= <-]. split; [apply normal_abs_box_gone | reflexivity].
    + by rewrite lookup_empty.
Qed.

(** [set] to [/srv/box/sub] on the toy bot, then [get]. *)
Lemma CwdStore_set_then_get_witness :
  startswith (lit "/srv/box/sub") (cs_base (cwd_store (toy_bot toy_dirs))) = true
  /\ CwdStore_get 7 toy_sub_bot = (Ok (lit "/srv/box/sub"), toy_sub_bot).
Proof.
  destruct (CwdStore_set_then_get (H := toy_host) 7 (lit "/srv/box/sub")
              (lit "/srv/box/sub") (toy_bot toy_dirs) toy_sub_bot)
    as (_ & Hin & _ & Hget & _).
  - vm_compute. reflexivity.
  - split; [exact Hin | exact Hget].
Defined.

(** From session 7 in [/srv/box/sub], a [set] back to the root. *)
Lemma CwdStore_set_keeps_prefixed_witness :
  cwd_prefixed (cwd_store (CwdStore_set 7 (lit "/srv/box") toy_sub_bot).2)
  /\ forall k, startswith (current_dir (CwdStore_set 7 (lit "/srv/box") toy_sub_bot).2 k)
                 (cs_base (cwd_store toy_sub_bot)) = true.
Proof.
  apply (CwdStore_set_keeps_prefixed (H := toy_host) 7 (lit "/srv/box") toy_sub_bot).
  intros k v. unfold toy_sub_bot, stored. cbn [cwd_store cs_cwd cs_base].
  rewrite lookup_insert. case_decide.
  - intros [= <-]. split; [apply normal_abs_box_sub | reflexivity].
  - change (cs_cwd (cwd_store (toy_bot toy_dirs))) with (∅ : gmap Z str).
    by rewrite lookup_empty.
Defined.

(** The snapshot of two sessions read back on a machine where only one
    of the two directories exists. *)
Lemma CwdStore_init_reloads_witness :
  cs_cwd (CwdStore_init (H := scripted_host [] (jsonify (snapshot toy_sessions)))
            toy_dirs (lit "/srv/box") (Some (lit ".data/cwd.json")))
  = filter (fun kv => bool_decide (kv.2 ∈ toy_dirs) = true) toy_sessions.
Proof.
  apply (CwdStore_init_reloads (H := scripted_host [] (jsonify (snapshot toy_sessions)))
           toy_dirs (lit "/srv/box") (lit ".data/cwd.json") toy_sessions).
  - reflexivity.
  - reflexivity.
  - apply toy_sessions_prefixed.
Defined.

(** [set] to [chat] on the toy bot, then [get]. *)
Lemma ModeStore_set_then_get_witness :
  exists b',
    ModeStore_set 7 chat_mode (toy_bot toy_dirs) = (Ok chat_mode, b')
    /\ ModeStore_get 7 b' = (Ok chat_mode, b')
    /\ (forall k, k <> 7 ->
          (ModeStore_get k b').1 = (ModeStore_get k (toy_bot toy_dirs)).1)
    /\ cwd_store b' = cwd_store (toy_bot toy_dirs)
    /\ log b' = log (toy_bot toy_dirs).
Proof.
  apply (ModeStore_set_then_get (H := toy_host) 7 chat_mode (toy_bot toy_dirs)).
  reflexivity.
Defined.

(** A snapshot with the key [general]. *)
Lemma ModeStore_init_bad_key_witness :
  ModeStore_init (H := scripted_host [] [(lit "general", JStr chat_mode)])
    toy_dirs (lit "command") (Some (lit ".data/modes.json"))
  = Raise (ValueError (lit "invalid literal for int()")).
Proof.
  apply (ModeStore_init_bad_key (H := scripted_host [] [(lit "general", JStr chat_mode)])
           toy_dirs (lit "command") (lit ".data/modes.json")
           [(lit "general", JStr chat_mode)] (lit "general") chat_mode).
  - reflexivity.
  - reflexivity.
  - apply list_elem_of_here.
  - reflexivity.
  - vm_compute. reflexivity.
Defined.

(** The snapshot of a store with channel 7 in chat mode, read back with a
    default that is no mode. *)
Lemma ModeStore_init_reloads_witness :
  ModeStore_init
    (H := scripted_host [] (jsonify (snapshot (<[7 := chat_mode]> ∅))))
    toy_dirs (lit "loud") (Some (lit ".data/modes.json"))
  = Ok {| ms_path := Some (lit ".data/modes.json");
          ms_default := if valid_mode (lit "loud") then lit "loud" else command_mode;
          ms_modes := <[7 := chat_mode]> ∅ |}.
Proof.
  apply (ModeStore_init_reloads
           (H := scripted_host [] (jsonify (snapshot (<[7 := chat_mode]> ∅))))
           toy_dirs (lit "loud") (lit ".data/modes.json") (<[7 := chat_mode]> ∅)).
  - reflexivity.
  - reflexivity.
  - intros k v. rewrite lookup_insert. case_decide.
    + by intros [= <-].
    + by rewrite lookup_empty.
Defined.

(** The pattern on [cd sub && ls]: the blank after [sub] is part of the
    first group. *)
Lemma cd_pattern_unix_sound_witness :
  exists ws g1 mid g2 tl,
    lit "cd sub && ls" = lit "cd" ++ ws ++ g1 ++ mid ++ g2 ++ tl
    /\ ws <> [] /\ forallb isspace ws = true
    /\ Some (lit "sub ") = Some g1 /\ g1 <> [] /\ forallb re.not_sep g1 = true
    /\ Some (lit "ls") = Some g2 /\ forallb re.any_but_newline g2 = true
    /\ re.at_end tl = true
    /\ exists b1 b2, forallb isspace b1 = true /\ forallb isspace b2 = true
         /\ (mid = b1 ++ lit ";" \/ mid = b1 ++ lit "&&" ++ b2
             \/ (mid = b1 /\ forallb isspace (g2 ++ tl) = true)).
Proof.
  apply (cd_pattern_unix_sound (lit "cd sub && ls") (Some (lit "sub ")) (Some (lit "ls"))).
  vm_compute. reflexivity.
Defined.

(** [ls] on the toy host. *)
Lemma run_command_outcomes_witness :
  mode_store (run_command (lit "ls") (Some (lit "/srv/box")) (Some 60%Q)
                (toy_bot toy_dirs)).2
  = mode_store (toy_bot toy_dirs)
  /\ cwd_store (run_command (lit "ls") (Some (lit "/srv/box")) (Some 60%Q)
                  (toy_bot toy_dirs)).2
     = cwd_store (toy_bot toy_dirs).
Proof.
  destruct (run_command_outcomes (H := toy_host) (lit "ls") (Some (lit "/srv/box"))
              (Some 60%Q) (toy_bot toy_dirs)
              (run_command (lit "ls") (Some (lit "/srv/box")) (Some 60%Q)
                 (toy_bot toy_dirs)).2
              (run_command (lit "ls") (Some (lit "/srv/box")) (Some 60%Q)
                 (toy_bot toy_dirs)).1)
    as (Hm & Hc & _).
  - vm_compute. reflexivity.
  - split; [exact Hm | exact Hc].
Defined.

(** A text of two thousand characters. *)
Lemma summarize_output_default_bounded_witness :
  exists r,
    summarize_output_default (repeat "a"%char 2000) = Ok r
    /\ len r <= 1800
    /\ (len (repeat "a"%char 2000) <= 1800 -> r = repeat "a"%char 2000)
    /\ (1800 < len (repeat "a"%char 2000) ->
        len r = 1736 + len (str_of_int (len (repeat "a"%char 2000) - 1710))).
Proof.
  apply (summarize_output_default_bounded (repeat "a"%char 2000)).
  vm_compute. reflexivity.
Defined.

(** The fenced answer with the tag [bash] and the command [ls]: the
    command returned is [bash]. *)
Lemma to_command_from_nl_fenced_witness :
  to_command_from_nl (H := scripted_host fenced_answer []) (lit "list the files") BASH
  = Ok (lit "bash").
Proof.
  apply (to_command_from_nl_fenced (H := scripted_host fenced_answer [])
           (lit "list the files") BASH (lit "bash") (lit "ls")).
  - intros prompt. reflexivity.
  - vm_compute. reflexivity.
Defined.

(** The plan of the toy host with its limit of five steps. *)
Lemma to_commands_from_nl_bounded_witness :
  match to_commands_from_nl (H := toy_host) (lit "list the files") BASH 5 with
  | Ok cmds => len cmds <= Z.max 1 5
  | Raise e => exists prompt, generate_text prompt = Raise e
  end.
Proof.
  apply (to_commands_from_nl_bounded (H := toy_host) (lit "list the files") BASH 5).
  lia.
Defined.

(** A message of blanks. *)
Lemma on_message_ignores_witness :
  mode_store (on_message toy_blank_message (toy_bot toy_dirs)).2
  = mode_store (toy_bot toy_dirs)
  /\ cwd_store (on_message toy_blank_message (toy_bot toy_dirs)).2
     = cwd_store (toy_bot toy_dirs)
  /\ world (on_message toy_blank_message (toy_bot toy_dirs)).2
     = world (toy_bot toy_dirs)
  /\ exists l, log (on_message toy_blank_message (toy_bot toy_dirs)).2
               = log (toy_bot toy_dirs) ++ l
               /\ spawns l = 0%nat.
Proof.
  apply (on_message_ignores (H := toy_host) toy_blank_message (toy_bot toy_dirs)).
  right. right. right. reflexivity.
Defined.

(** The toy host's limit of five steps. *)
Lemma on_message_spawn_budget_witness :
  exists l,
    log (on_message toy_chat_message (toy_bot toy_dirs)).2
    = log (toy_bot toy_dirs) ++ l
    /\ (spawns l <= Z.to_nat (Z.max 1 5))%nat.
Proof.
  apply (on_message_spawn_budget (H := toy_host) toy_chat_message (toy_bot toy_dirs)).
  vm_compute. discriminate.
Defined.

(** The failing step [mkdir x] of a plan of three. *)
Lemma plan_step_stops_only_on_failure_witness :
  exists result b2 msg,
    step_invoked 7 3 1 (lit "mkdir x") (toy_bot toy_dirs) result b2
    /\ exit_code result <> 0
    /\ report step_head result = Ok msg
    /\ (plan_step 7 3 1 (lit "mkdir x") (toy_bot toy_dirs)).2
       = with_log b2 (log b2 ++ [EvSend msg; EvSend (stop_notice 1)]).
Proof.
  apply (plan_step_stops_only_on_failure (H := toy_host) 7 3 1 (lit "mkdir x")
           (toy_bot toy_dirs)
           (plan_step 7 3 1 (lit "mkdir x") (toy_bot toy_dirs)).2).
  vm_compute. reflexivity.
Defined.

(** The command [ls] with blanks around it. *)
Lemma run_single_runs_trimmed_witness :
  (run_single 7 (lit " ls ") (toy_bot toy_dirs)).1 = Ok tt
  /\ mode_store (run_single 7 (lit " ls ") (toy_bot toy_dirs)).2
     = mode_store (toy_bot toy_dirs)
  /\ cwd_store (run_single 7 (lit " ls ") (toy_bot toy_dirs)).2
     = cwd_store (toy_bot toy_dirs).
Proof.
  apply (run_single_runs_trimmed (H := toy_host) 7 (lit " ls ") (toy_bot toy_dirs)).
  vm_compute. reflexivity.
Defined.

(** [/cwd sub], then [/cwd]. *)
Lemma cwd_cmd_show_after_change_witness :
  cwd_cmd toy_interaction None
    (cwd_cmd toy_interaction (Some (lit "sub")) (toy_bot toy_dirs)).2
  = (Ok tt,
     with_log (cwd_cmd toy_interaction (Some (lit "sub")) (toy_bot toy_dirs)).2
       (log (cwd_cmd toy_interaction (Some (lit "sub")) (toy_bot toy_dirs)).2
        ++ [EvSend (current_message (lit "sub"))])).
Proof.
  apply (cwd_cmd_show_after_change (H := toy_host) (C := toy_console)
           toy_interaction (lit "sub") (lit "sub") (toy_bot toy_dirs)
           (cwd_cmd toy_interaction (Some (lit "sub")) (toy_bot toy_dirs)).2
           (Ok tt)).
  - vm_compute. reflexivity.
  - vm_compute. reflexivity.
Defined.

(** The path [/srv/boxes/f], which is not below the root [/srv/box]. *)
Lemma modal_saves_absolute_path_as_given_witness :
  ~ within (lit "/srv/box") (lit "/srv/boxes/f")
  /\ FileEditModal_on_submit toy_interaction (lit " /srv/boxes/f ") (lit "text")
       (toy_bot toy_dirs)
     = (Ok tt,
        with_log (with_world (toy_bot toy_dirs) (lit "/srv/boxes" :: toy_dirs))
          (log (toy_bot toy_dirs)
           ++ [EvSend (saved_message (lit "/srv/boxes/f") (lit "text"))])).
Proof.
  split.
  - unfold within. intros [k Hk]. vm_compute in Hk. discriminate.
  - apply (modal_saves_absolute_path_as_given (H := toy_host) (C := toy_console)
             toy_interaction (lit " /srv/boxes/f ") (lit "/srv/boxes/f") (lit "text")
             (toy_bot toy_dirs) (lit "/srv/boxes" :: toy_dirs)
             (lit "/srv/boxes" :: toy_dirs)).
    + reflexivity.
    + vm_compute. reflexivity.
    + apply normal_abs_boxes_file.
    + reflexivity.
    + vm_compute. reflexivity.
    + reflexivity.
Defined.
